(** * Word extraction and in-place word replacement of the spell checker

    A shallow embedding of
    - [src/renderer/spellchecker] : [WORD_SEPARATORS], [WORD_DEFINITION],
      [offsetToWordCursor], [validateLineCursor], [SpellChecker.extractWord];
    - [src/muya/lib/contentState/core.js] : [replaceWordInline] and
      [_replaceCurrentWordInlineUnsafe].

    JavaScript strings are sequences of UTF-16 code units, numbers that
    index them are integers ([Z]), objects that are shared and mutated
    (blocks) live in a store, and a call either returns or throws. *)

From Stdlib Require Import ZArith List Ascii String Lia Bool.
From stdpp Require Import base option list gmap strings.

Local Open Scope Z_scope.

(** ** JavaScript strings and the string methods the code calls *)

Module JS.

(** A UTF-16 code unit. *)
Definition char : Type := N.

(** A JavaScript string. *)
Definition jsstring : Type := list char.

(** The code unit of an ASCII character, to write classes as the source does. *)
Definition ch (a : ascii) : char := N_of_ascii a.

(** A string literal of ASCII characters as a JavaScript string. *)
Fixpoint str (s : string) : jsstring :=
  match s with
  | EmptyString => []
  | String a s' => ch a :: str s'
  end.

(** [s.length] *)
Definition len (s : jsstring) : Z := Z.of_nat (length s).

(** The relative index of [String.prototype.slice] and [substr]: a negative
    index counts from the end, and every index is clamped into [0, l]. *)
Definition rel_index (l i : Z) : Z :=
  if i <? 0 then Z.max (l + i) 0 else Z.min i l.

(** [s.slice(b, e)] *)
Definition slice (s : jsstring) (b e : Z) : jsstring :=
  let from := rel_index (len s) b in
  let to := rel_index (len s) e in
  take (Z.to_nat (Z.max (to - from) 0)) (drop (Z.to_nat from) s).

(** [s.slice(b)] : the end defaults to the length. *)
Definition slice_from (s : jsstring) (b : Z) : jsstring :=
  slice s b (len s).

(** [s.substr(b, n)] : [n] code units from relative index [b]. *)
Definition substr (s : jsstring) (b n : Z) : jsstring :=
  let from := rel_index (len s) b in
  let count := Z.min (Z.max n 0) (len s) in
  let to := Z.min (from + count) (len s) in
  take (Z.to_nat (to - from)) (drop (Z.to_nat from) s).

(** [s.substr(b)] : up to the end of the string. *)
Definition substr_from (s : jsstring) (b : Z) : jsstring :=
  drop (Z.to_nat (rel_index (len s) b)) s.

(** The downward search of [lastIndexOf] for a single code unit: the largest
    index [<= k] that holds [c], or -1. *)
Fixpoint lastIndexOf_down (s : jsstring) (c : char) (k : nat) : Z :=
  if decide (s !! k = Some c) then Z.of_nat k
  else match k with
       | O => -1
       | S k' => lastIndexOf_down s c k'
       end.

(** [s.lastIndexOf(c, pos)] for a search string of one code unit [c]: the
    position is clamped into [0, s.length] before the search. *)
Definition lastIndexOf (s : jsstring) (c : char) (pos : Z) : Z :=
  lastIndexOf_down s c (Z.to_nat (Z.min (Z.max pos 0) (len s))).

(** *** Regular expressions

    The fragment of the regular expression syntax the two patterns of the
    spell checker use: a class atom, its [?], [*] and [+] quantifiers (all
    greedy), concatenation and ordered alternation. *)

Inductive regex : Type :=
| Chr (p : char -> bool)
| Opt (p : char -> bool)
| Star (p : char -> bool)
| Plus (p : char -> bool)
| Seq (r1 r2 : regex)
| Alt (r1 r2 : regex).

(** The first result of two alternatives tried in order (backtracking). *)
Definition orelse {A} (x : option A) (y : option A) : option A :=
  match x with
  | Some _ => x
  | None => y
  end.

(** Greedy [p*] followed by the continuation [k]: the longest run is tried
    first, then shorter ones. *)
Fixpoint star (p : char -> bool) (s : jsstring)
    (k : jsstring -> option jsstring) : option jsstring :=
  match s with
  | c :: s' => if p c then orelse (star p s' k) (k s) else k s
  | [] => k s
  end.

(** The backtracking matcher: [matcher r s k] matches [r] at the head of [s]
    and hands the rest of the input to the continuation [k]; the result is
    the input left after the whole match. *)
Fixpoint matcher (r : regex) (s : jsstring)
    (k : jsstring -> option jsstring) : option jsstring :=
  match r with
  | Chr p =>
      match s with
      | c :: s' => if p c then k s' else None
      | [] => None
      end
  | Opt p =>
      match s with
      | c :: s' => if p c then orelse (k s') (k s) else k s
      | [] => k s
      end
  | Star p => star p s k
  | Plus p =>
      match s with
      | c :: s' => if p c then star p s' k else None
      | [] => None
      end
  | Seq r1 r2 => matcher r1 s (fun s1 => matcher r2 s1 k)
  | Alt r1 r2 => orelse (matcher r1 s k) (matcher r2 s k)
  end.

(** A match of [r] anchored at the head of [s]: the input left after it. *)
Definition match_here (r : regex) (s : jsstring) : option jsstring :=
  matcher r s Some.

(** The search of [RegExp.prototype.exec]: the first position at or after
    [i] (the position of [s] in the whole text) where [r] matches, with the
    position after the match. *)
Fixpoint search (r : regex) (s : jsstring) (i : Z) : option (Z * Z) :=
  match match_here r s with
  | Some rest => Some (i, i + (len s - len rest))
  | None =>
      match s with
      | [] => None
      | _ :: s' => search r s' (i + 1)
      end
  end.

(** [r.exec(text)] of a global pattern whose [lastIndex] is [lastIndex]:
    [Some (match.index, r.lastIndex)] after a match, [None] for [null]. *)
Definition exec (r : regex) (text : jsstring) (lastIndex : Z)
    : option (Z * Z) :=
  let i := Z.max lastIndex 0 in
  if len text <? i then None
  else search r (drop (Z.to_nat i) text) i.

(** The least number of code units a match of [r] takes. *)
Fixpoint min_len (r : regex) : nat :=
  match r with
  | Chr _ | Plus _ => 1
  | Opt _ | Star _ => 0
  | Seq r1 r2 => min_len r1 + min_len r2
  | Alt r1 r2 => Nat.min (min_len r1) (min_len r2)
  end.

(** Character classes. *)

Inductive class_item : Type :=
| One (c : char)
| Range (lo hi : char)
| Esc_s.

(** [\s] : the white space and line terminator code units. *)
Definition is_space (c : char) : bool :=
  ((9 <=? c) && (c <=? 13) || (c =? 32) || (c =? 160) || (c =? 5760)
   || (8192 <=? c) && (c <=? 8202) || (c =? 8232) || (c =? 8233)
   || (c =? 8239) || (c =? 8287) || (c =? 12288) || (c =? 65279))%N.

(** [\d] *)
Definition is_digit (c : char) : bool := ((48 <=? c) && (c <=? 57))%N.

(** [\w] *)
Definition is_word (c : char) : bool :=
  ((65 <=? c) && (c <=? 90) || (97 <=? c) && (c <=? 122)
   || is_digit c || (c =? 95))%N.

Definition in_item (c : char) (it : class_item) : bool :=
  match it with
  | One d => (c =? d)%N
  | Range lo hi => ((lo <=? c) && (c <=? hi))%N
  | Esc_s => is_space c
  end.

(** [[...]] *)
Definition in_class (items : list class_item) (c : char) : bool :=
  existsb (in_item c) items.

(** [[^...]] *)
Definition not_in_class (items : list class_item) (c : char) : bool :=
  negb (in_class items c).

End JS.

Import JS.

(** ** The document objects the code reads and writes *)

(** A line identifier ([key]) and the identity of a block object. *)
Definition Key : Type := string.
Definition loc : Type := positive.

(** A block of the document tree: the fields the code reads. [functionType]
    and [lang] are [None] when the property is [undefined]. *)
Record Block : Type := mkBlock {
  text : jsstring;
  functionType : option string;
  lang : option string
}.

(** A position [{ key, offset, block }]; [block] is a reference to a block
    object, [None] when the property is absent. *)
Record Position : Type := mkPosition {
  key : Key;
  offset : Z;
  block : option loc
}.

(** A line or word cursor [{ start, end }]. *)
Record Cursor : Type := mkCursor {
  start : Position;
  end_ : Position
}.

(** [Object.assign({}, p, { offset: o })] *)
Definition with_offset (p : Position) (o : Z) : Position :=
  {| key := key p; offset := o; block := block p |}.

(** [p.block = b] *)
Definition with_block (p : Position) (b : option loc) : Position :=
  {| key := key p; offset := offset p; block := b |}.

(** The selection object as [validateLineCursor] inspects it: every
    property it tests for presence may be missing. *)
Module Raw.

Record Position : Type := mkPosition {
  key : Key;
  offset : option Z;
  block : option loc
}.

Record Affiliation : Type := mkAffiliation {
  type : string
}.

Record Selection : Type := mkSelection {
  start : option Position;
  end_ : option Position;
  affiliation : option (list Affiliation)
}.

End Raw.

(** A cursor seen as a selection object: [{ start, end }] and no other
    property. *)
Definition raw_position (p : Position) : Raw.Position :=
  {| Raw.key := key p; Raw.offset := Some (offset p); Raw.block := block p |}.

Definition raw_cursor (c : Cursor) : Raw.Selection :=
  {| Raw.start := Some (raw_position (start c));
     Raw.end_ := Some (raw_position (end_ c));
     Raw.affiliation := None |}.

(** What a call throws. [TypeError] is the fault of reading a property of
    [undefined] or [null]; the others are the [Error]s of
    [replaceWordInline], in the order of its checks:
    - [InvalidWordCursor] : Expect a single line word cursor
    - [InvalidLineCursor] : Expect a single line line cursor
    - [InvalidOffsetOrder] : Invalid word cursor offset
    - [CursorMismatch] : Cursor mismatch: Expect the same line
    - [OutOfBounds] : Invalid cursor: Replacement length is larger than
      line length. *)
Inductive error : Type :=
| TypeError
| InvalidWordCursor
| InvalidLineCursor
| InvalidOffsetOrder
| CursorMismatch
| OutOfBounds.

(** The result of a call that changes no object: a value or a fault. *)
Inductive result (A : Type) : Type :=
| Return (v : A)
| Raise (e : error).

Arguments Return {A} v.
Arguments Raise {A} e.

(** ** The spell checker helpers *)

Module SpellChecker.

(** The class of both patterns, item by item in the order of the source:
    backquote, tilde, [!@#$%^&*(], then [)-=], which inside a class is the
    range from the closing parenthesis to the equals sign, then [+], the
    brackets and braces, backslash, [|;:], the single quote, the double
    quote (code unit 34), [,.<>/?] and [\s]. *)
Definition separator_class : list class_item :=
  [ One (ch "`"); One (ch "~"); One (ch "!"); One (ch "@"); One (ch "#");
    One (ch "$"); One (ch "%"); One (ch "^"); One (ch "&"); One (ch "*");
    One (ch "("); Range (ch ")") (ch "="); One (ch "+"); One (ch "[");
    One (ch "{"); One (ch "]"); One (ch "}"); One (ch "\"); One (ch "|");
    One (ch ";"); One (ch ":"); One (ch "'"); One 34%N; One (ch ",");
    One (ch "."); One (ch "<"); One (ch ">"); One (ch "/"); One (ch "?");
    Esc_s ].

Definition is_separator : char -> bool := in_class separator_class.

(** [WORD_SEPARATORS] : one code unit of the class. *)
Definition WORD_SEPARATORS : regex := Chr is_separator.

(** [WORD_DEFINITION] : [-?\d*\.\d\w*], or else one or more code units
    outside the class. *)
Definition WORD_DEFINITION : regex :=
  Alt
    (Seq (Opt (N.eqb (ch "-")))
       (Seq (Star is_digit)
          (Seq (Chr (N.eqb (ch ".")))
             (Seq (Chr is_digit) (Star is_word)))))
    (Plus (not_in_class separator_class)).

Section DeepClone.

(** [deepClone] of [@/util] is not among the sources: it is a parameter. *)
Variable deepClone : Position -> Position.

(** [offsetToWordCursor(lineCursor, left, right)] *)
Definition offsetToWordCursor (lineCursor : Cursor) (left right : Z)
    : Cursor :=
  let start := deepClone (start lineCursor) in
  let end_ := deepClone (end_ lineCursor) in
  {| start := with_offset start left; end_ := with_offset end_ right |}.

End DeepClone.

(** [validateLineCursor(selection)]; [h] holds the block objects. The first
    test is a chain of [&&]: an absent selection makes [!selection] true and
    the next operand reads [selection.start] of it, which faults; a present
    one makes [!selection] false, which ends the chain, and the test is not
    taken. A reference to no object of [h] reads as [undefined]. *)
Definition validateLineCursor (h : gmap loc Block)
    (selection : option Raw.Selection) : result bool :=
  match selection with
  | None => Raise TypeError
  | Some sel =>
      match Raw.start sel, Raw.end_ sel with
      | Some startCursor, Some endCursor =>
          if negb (String.eqb (Raw.key startCursor) (Raw.key endCursor))
             || negb (bool_decide (is_Some (Raw.block startCursor)))
          then Return false
          else
            match Raw.block startCursor ≫= (h !!.) with
            | None => Raise TypeError
            | Some b =>
                if bool_decide (functionType b = Some "codeContent"%string)
                   && bool_decide (is_Some (lang b))
                then Return false
                else
                  match Raw.affiliation sel with
                  | Some [a] =>
                      if String.eqb (Raw.type a) "pre" then Return false
                      else Return true
                  | _ => Return true
                  end
            end
      | _, _ => Raise TypeError
      end
  end.

(** The result [{ left, right, word }] of [extractWord]. *)
Record WordInfo : Type := mkWordInfo {
  left : Z;
  right : Z;
  word : jsstring
}.

(** The [while] loop of [extractWord]: [lastIndex] is
    [WORD_DEFINITION.lastIndex], [left] the variable of the same name. A
    match is never empty, so [lastIndex] grows at every turn and the loop
    ends within [text.length + 1] turns, which is the fuel [extractWord]
    gives it. *)
Fixpoint scan_left (fuel : nat) (text : jsstring) (offset lastIndex left : Z)
    : Z :=
  match fuel with
  | O => left
  | S fuel' =>
      match exec WORD_DEFINITION text lastIndex with
      | Some (index, lastIndex') =>
          if index <=? offset
          then scan_left fuel' text offset lastIndex'
                 (if offset <? lastIndex' then index else left)
          else left
      | None => left
      end
  end.

(** The offset after the first [if] chain of [extractWord]. *)
Definition clamp (text : jsstring) (offset : Z) : Z :=
  if offset <? 0 then 0
  else if offset >=? len text then len text - 1
  else offset.

(** [SpellChecker.extractWord(text, offset)]; [None] is [null]. Both
    patterns have [lastIndex] 0 on entry and on exit. *)
Definition extractWord (text : jsstring) (offset : Z) : option WordInfo :=
  if len text =? 0 then None
  else
    let offset := clamp text offset in
    let lastIndex := lastIndexOf text (ch " ") (offset - 1) + 1 in
    let left := scan_left (S (length text)) text offset lastIndex (-1) in
    if left <=? -1 then None
    else
      let right :=
        match exec WORD_SEPARATORS text offset with
        | Some (index, _) => index
        | None => -1
        end in
      if right <? 0
      then Some {| left := left; right := len text;
                   word := slice_from text left |}
      else Some {| left := left; right := right;
                   word := slice text left right |}.

End SpellChecker.

(** ** The content state and its two replacement methods *)

Module ContentState.

Import SpellChecker.

(** What the methods tell their collaborators, in the order they tell it:
    [this.partialRender()], [this.muya.dispatchSelectionChange()],
    [this.muya.dispatchChange()] and [console.warn(...)]. *)
Inductive Event : Type :=
| PartialRender
| DispatchSelectionChange
| DispatchChange
| ConsoleWarn.

(** The state the methods work on: the block objects ([heap]), the block of
    each line key as [this.getBlock] finds it ([blocks]), the active cursor
    [this.cursor], and the calls made to collaborators so far. *)
Record State : Type := mkState {
  heap : gmap loc Block;
  blocks : gmap Key loc;
  cursor : Cursor;
  events : list Event
}.

Definition set_heap (st : State) (h : gmap loc Block) : State :=
  {| heap := h; blocks := blocks st; cursor := cursor st;
     events := events st |}.

Definition set_cursor (st : State) (c : Cursor) : State :=
  {| heap := heap st; blocks := blocks st; cursor := c;
     events := events st |}.

Definition emit (st : State) (e : Event) : State :=
  {| heap := heap st; blocks := blocks st; cursor := cursor st;
     events := events st ++ [e] |}.

(** [b.text = t] *)
Definition set_text (b : Block) (t : jsstring) : Block :=
  {| text := t; functionType := functionType b; lang := lang b |}.

(** [this.getBlock(key)] *)
Definition getBlock (st : State) (k : Key) : option loc := blocks st !! k.

(** How a method call ends: it returns a value or throws, and either way
    leaves the state as it is at that moment. *)
Inductive outcome (A : Type) : Type :=
| Ok (st : State) (v : A)
| Throw (st : State) (e : error).

Arguments Ok {A} st v.
Arguments Throw {A} st e.

(** [replaceWordInline(line, wordCursor, replacement, setCursor)]. The
    method assigns to [line.start] and [line.end]: the value returned is
    the object [line] after the call. A reference to no object of the heap
    reads as [undefined]. *)
Definition replaceWordInline (line wordCursor : Cursor)
    (replacement : jsstring) (setCursor : bool) (st : State)
    : outcome Cursor :=
  let lineStart := start line in
  let lineEnd := end_ line in
  let wordStart := start wordCursor in
  let wordEnd := end_ wordCursor in
  if negb (String.eqb (key wordStart) (key wordEnd)) then
    Throw st InvalidWordCursor
  else if negb (String.eqb (key lineStart) (key lineEnd)) then
    Throw st InvalidLineCursor
  else if offset wordStart >? offset wordEnd then
    Throw st InvalidOffsetOrder
  else if negb (String.eqb (key lineStart) (key wordEnd)) then
    Throw st CursorMismatch
  else
    match block lineStart with
    | None => Throw st TypeError
    | Some l =>
        match heap st !! l with
        | None => Throw st TypeError
        | Some b =>
            if len (text b) <? offset wordEnd then Throw st OutOfBounds
            else
              let left := offset wordStart in
              let right := offset wordEnd in
              let b' :=
                set_text b
                  (substr (text b) 0 left ++ replacement
                   ++ substr_from (text b) right) in
              let st1 := set_heap st (<[l := b']> (heap st)) in
              let '(line', st2) :=
                if setCursor then
                  let cursor :=
                    with_offset wordStart (left + len replacement) in
                  ({| start := cursor; end_ := cursor |},
                   set_cursor st1 {| start := cursor; end_ := cursor |})
                else (line, st1) in
              Ok (emit (emit (emit st2 PartialRender)
                          DispatchSelectionChange) DispatchChange)
                 line'
        end
    end.

(** The five preconditions of [replaceWordInline], for a line whose start
    position refers to the block object [b] at [l]. *)
Definition preconditions (line wordCursor : Cursor) (st : State)
    (l : loc) (b : Block) : Prop :=
  key (start wordCursor) = key (end_ wordCursor)
  /\ key (start line) = key (end_ line)
  /\ offset (start wordCursor) <= offset (end_ wordCursor)
  /\ key (start line) = key (end_ wordCursor)
  /\ block (start line) = Some l
  /\ heap st !! l = Some b
  /\ offset (end_ wordCursor) <= len (text b).

(** The object [cursor] of [_replaceCurrentWordInlineUnsafe]: the cursor
    range with [this.getBlock(start.key)] assigned to [start.block]. *)
Definition attach_block (st : State) (range : Cursor) : Cursor :=
  {| start := with_block (start range) (getBlock st (key (start range)));
     end_ := end_ range |}.

Section DeepClone.

Variable deepClone : Position -> Position.

(** [_replaceCurrentWordInlineUnsafe(word, replacement)]. The cursor range
    [{ start, end }] of [selection.getCursorRange()], a collaborator outside
    these sources, is the argument [range]. *)
Definition _replaceCurrentWordInlineUnsafe (range : Cursor)
    (word replacement : jsstring) (st : State) : outcome bool :=
  let cursor_ := attach_block st range in
  match validateLineCursor (heap st) (Some (raw_cursor cursor_)) with
  | Raise e => Throw st e
  | Return false => Ok (emit st ConsoleWarn) false
  | Return true =>
      let startCursor := start cursor_ in
      let lineOffset := offset startCursor in
      match block startCursor ≫= (heap st !!.) with
      | None => Throw st TypeError
      | Some b =>
          match extractWord (text b) lineOffset with
          | Some wordInfo =>
              let selectedWord := SpellChecker.word wordInfo in
              if negb (bool_decide (selectedWord = word)) then
                Ok (emit st ConsoleWarn) false
              else
                let wordRange :=
                  offsetToWordCursor deepClone (cursor st)
                    (left wordInfo) (right wordInfo) in
                match replaceWordInline cursor_ wordRange replacement true st
                with
                | Ok st' _ => Ok st' true
                | Throw st' e => Throw st' e
                end
          | None => Ok st false
          end
      end
  end.

End DeepClone.

End ContentState.

(** ** Sample objects *)

Module Sample.

Import ContentState.

(** A paragraph line [abc def] with key [ag-1] at address 1. *)
Definition paragraph : Block :=
  {| text := str "abc def"; functionType := Some "paragraphContent"%string;
     lang := None |}.

(** A line of a fenced code block with a language. *)
Definition code_line : Block :=
  {| text := str "let teh = 1"; functionType := Some "codeContent"%string;
     lang := Some "js"%string |}.

Definition at_ (k : Key) (o : Z) (b : option loc) : Position :=
  {| key := k; offset := o; block := b |}.

Definition caret (k : Key) (o : Z) (b : option loc) : Cursor :=
  {| start := at_ k o b; end_ := at_ k o b |}.

(** A document of the two lines whose active cursor is on the line
    [cur]. *)
Definition doc (cur : Key) : State :=
  {| heap := {[ 1%positive := paragraph; 2%positive := code_line ]};
     blocks := {[ "ag-1"%string := 1%positive; "ag-2"%string := 2%positive ]};
     cursor := caret cur 0 None;
     events := [] |}.

(** The line [ag-1] with its block, and the word [def] on it. *)
Definition line1 : Cursor := caret "ag-1" 5 (Some 1%positive).

Definition word_def : Cursor :=
  {| start := at_ "ag-1" 4 None; end_ := at_ "ag-1" 7 None |}.

End Sample.

(** ** Notions the properties are stated with *)

(** The code units a match of [r] can hold: those of its classes. *)
Fixpoint chars (r : regex) (c : char) : bool :=
  match r with
  | Chr p | Opt p | Star p | Plus p => p c
  | Seq r1 r2 | Alt r1 r2 => chars r1 c || chars r2 c
  end.

(** ** The spell checker object

    The instance methods of the class [SpellChecker]. The platform flag
    [isOsx], the answers of the main process and of [webFrame] are
    parameters. An [async] method has one [await] at most: its model takes
    the answer awaited as an argument and runs the method from call to
    settlement, with no other code run in between. *)

Module SpellCheckerObject.

(** The fields of an instance; [currentSpellcheckerLanguage] is [None]
    when [undefined]. *)
Record t : Type := mk {
  enabled : bool;
  isProviderAvailable : bool;
  currentSpellcheckerLanguage : option string
}.

(** What is sent to the main process: [ipcRenderer.send] of
    [mt::spellchecker-set-enabled] and [ipcRenderer.invoke] of
    [mt::spellchecker-switch-language], [mt::spellchecker-add-word] and
    [mt::spellchecker-remove-word]. *)
Inductive Message : Type :=
| SetEnabled (value : bool)
| SwitchLanguage (lang : option string)
| AddWord (word : jsstring)
| RemoveWord (word : jsstring).

(** [new Error(message)] *)
Inductive js_error : Type :=
| Error (message : string).

(** A settled promise. *)
Inductive settled (A : Type) : Type :=
| Fulfilled (v : A)
| Rejected (e : js_error).

Arguments Fulfilled {A} v.
Arguments Rejected {A} e.

(** How an [ipcRenderer.invoke] settles: with the value the main process
    returns, or with an error. *)
Inductive invoked (A : Type) : Type :=
| Replied (v : A)
| Failed (e : js_error).

Arguments Replied {A} v.
Arguments Failed {A} e.

(** Truthiness of a string that may be [undefined]. *)
Definition truthy (s : option string) : bool :=
  match s with
  | Some EmptyString | None => false
  | Some _ => true
  end.

(** [constructor (enabled = true, lang)] *)
Definition new (enabled : option bool) (lang : option string) : t :=
  {| enabled := default true enabled;
     isProviderAvailable := true;
     currentSpellcheckerLanguage := lang |}.

(** [get isEnabled ()] *)
Definition isEnabled (sc : t) : bool :=
  isProviderAvailable sc && enabled sc.

(** [deactivateSpellchecker ()] : the instance after the call and what
    was sent. *)
Definition deactivateSpellchecker (sc : t) : t * list Message :=
  ({| enabled := false; isProviderAvailable := false;
      currentSpellcheckerLanguage := currentSpellcheckerLanguage sc |},
   [SetEnabled false]).

(** [ignoreWord (word)] *)
Definition ignoreWord (sc : t) (word : jsstring) : bool := false.

(** [get lang ()] *)
Definition lang (sc : t) : option string :=
  if isEnabled sc then currentSpellcheckerLanguage sc else Some ""%string.

(** [set lang (lang)] *)
Definition set_lang (l : option string) (sc : t) : t :=
  {| enabled := enabled sc; isProviderAvailable := isProviderAvailable sc;
     currentSpellcheckerLanguage := l |}.

Section Host.

Variable isOsx : bool.

(** [async switchLanguage (lang)]; [reply] settles the [invoke]. *)
Definition switchLanguage (reply : invoked (option string))
    (l : option string) (sc : t) : t * list Message * settled bool :=
  if isOsx then (sc, [], Fulfilled true)
  else if negb (truthy l) then
    (sc, [], Rejected (Error "Invalid empty language."))
  else if isEnabled sc then
    match reply with
    | Failed e => (sc, [SwitchLanguage l], Rejected e)
    | Replied errorMsg =>
        if truthy errorMsg then
          (sc, [SwitchLanguage l],
           Rejected (Error (default ""%string errorMsg)))
        else (set_lang l sc, [SwitchLanguage l], Fulfilled true)
    end
  else (sc, [], Fulfilled false).

(** [async activateSpellchecker (lang)] *)
Definition activateSpellchecker (reply : invoked (option string))
    (l : option string) (sc : t) : t * list Message * settled bool :=
  let sc1 :=
    {| enabled := true; isProviderAvailable := true;
       currentSpellcheckerLanguage := currentSpellcheckerLanguage sc |} in
  let '(sc2, sent, r) :=
    switchLanguage reply
      (if truthy l then l else currentSpellcheckerLanguage sc1) sc1 in
  match r with
  | Fulfilled success => (sc2, sent, Fulfilled success)
  | Rejected e =>
      let '(sc3, sent') := deactivateSpellchecker sc2 in
      (sc3, sent ++ sent', Rejected e)
  end.

(** [async addToDictionary (word)] and [async removeFromDictionary
    (word)]; [reply] settles the [invoke]. *)
Definition addToDictionary (reply : invoked bool) (word : jsstring)
    (sc : t) : list Message * settled bool :=
  if negb (isEnabled sc) then ([], Fulfilled false)
  else
    ([AddWord word],
     match reply with
     | Replied v => Fulfilled v
     | Failed e => Rejected e
     end).

Definition removeFromDictionary (reply : invoked bool) (word : jsstring)
    (sc : t) : list Message * settled bool :=
  if negb (isEnabled sc) then ([], Fulfilled false)
  else
    ([RemoveWord word],
     match reply with
     | Replied v => Fulfilled v
     | Failed e => Rejected e
     end).

(** [isMisspelled (word)]; [isWordMisspelled] is the answer of
    [webFrame]. *)
Definition isMisspelled (isWordMisspelled : jsstring -> bool) (sc : t)
    (word : jsstring) : bool :=
  if isEnabled sc then isWordMisspelled word else false.

(** [async getWordSuggestion (word)]; [getWordSuggestions] is the answer
    of [webFrame]. *)
Definition getWordSuggestion
    (getWordSuggestions : jsstring -> list jsstring) (sc : t)
    (word : jsstring) : settled (list jsstring) :=
  if isEnabled sc then Fulfilled (getWordSuggestions word)
  else Fulfilled [].

End Host.

End SpellCheckerObject.

(** ** The spelling submenu

    The function that builds the spelling submenu of the context menu. A
    click handler is modelled by what it does with its captured values. *)

Module SpellingMenu.

(** What a click does:
    - [ShowSwitchLanguage] sends [mt::spelling-show-switch-language];
    - [AddToDictionary w] adds [w] to the dictionary and, unless that
      fails, calls [replaceMisspelling(w)];
    - [ReplaceMisspelling w r] sends [mt::spelling-replace-misspelling]
      with [{ word: w, replacement: r }];
    - [EditDictionary] reads the custom dictionary words. *)
Inductive Click : Type :=
| ShowSwitchLanguage
| AddToDictionary (word : jsstring)
| ReplaceMisspelling (word replacement : jsstring)
| EditDictionary.

(** An entry of the submenu: a [MenuItem] made with [new], an object
    literal [{ label, click }], or the constant [SEPARATOR] of
    [./menuItems]. *)
Inductive Item : Type :=
| NewMenuItem (label : jsstring) (visible : bool) (click : Click)
| Template (label : jsstring) (click : Click)
| SEPARATOR.

(** Truthiness of a string that may be [undefined]. *)
Definition truthy (s : option jsstring) : bool :=
  match s with
  | Some (_ :: _) => true
  | _ => false
  end.

Section Host.

Variable isOsx : bool.

(** The default export: [(isMisspelled, misspelledWord, wordSuggestions)
    => spellingSubmenu]. The word and the suggestions may be [undefined];
    in the branch taken when both are truthy they are a string and an
    array. *)
Definition spellingSubmenu (isMisspelled : bool)
    (misspelledWord : option jsstring)
    (wordSuggestions : option (list jsstring)) : list Item :=
  let spellingSubmenu :=
    [NewMenuItem (str "Change Language...") (negb isOsx)
       ShowSwitchLanguage] in
  if isMisspelled && truthy misspelledWord
     && bool_decide (is_Some wordSuggestions)
  then
    let misspelledWord := default [] misspelledWord in
    let wordSuggestions := default [] wordSuggestions in
    let spellingSubmenu :=
      spellingSubmenu
      ++ [Template (str "Add to Dictionary")
            (AddToDictionary misspelledWord)] in
    if Z.of_nat (length wordSuggestions) >? 0 then
      fold_left
        (fun menu word =>
           menu ++ [Template word (ReplaceMisspelling misspelledWord word)])
        wordSuggestions (spellingSubmenu ++ [SEPARATOR])
    else spellingSubmenu
  else
    spellingSubmenu
    ++ [Template (str "Edit Dictionary...") EditDictionary].

End Host.

End SpellingMenu.

(** * Properties *)

Import SpellChecker ContentState.

(** ** String methods *)

Section StringFacts.

Implicit Types (s : jsstring) (c : char).

Lemma len_nonneg s : 0 <= len s.
Proof. unfold len. lia. Qed.

Lemma len_app s1 s2 : len (s1 ++ s2) = len s1 + len s2.
Proof. unfold len. rewrite length_app. lia. Qed.

Lemma rel_index_id l i : 0 <= i <= l -> rel_index l i = i.
Proof.
  intros H. unfold rel_index.
  destruct (Z.ltb_spec i 0); lia.
Qed.

(** Within the bounds of the string, [slice] is the part between the two
    indices. *)
Lemma slice_take_drop s b e :
  0 <= b <= e -> e <= len s ->
  slice s b e = take (Z.to_nat (e - b)) (drop (Z.to_nat b) s).
Proof.
  intros Hb He. unfold slice.
  rewrite !rel_index_id by lia.
  f_equal. lia.
Qed.

Lemma slice_length s b e :
  0 <= b <= e -> e <= len s -> len (slice s b e) = e - b.
Proof.
  intros Hb He. rewrite slice_take_drop by lia.
  unfold len in *. rewrite length_take, length_drop. lia.
Qed.

Lemma substr_0_take s n :
  0 <= n -> substr s 0 n = take (Z.to_nat n) s.
Proof.
  intros Hn. unfold substr.
  pose proof (len_nonneg s) as Hl.
  rewrite rel_index_id by lia.
  change (Z.to_nat 0) with 0%nat. rewrite drop_0.
  destruct (Z.le_gt_cases n (len s)) as [Hle | Hgt].
  - f_equal. lia.
  - rewrite !take_ge; [reflexivity | unfold len in *; lia ..].
Qed.

Lemma substr_from_drop s b :
  0 <= b -> substr_from s b = drop (Z.to_nat b) s.
Proof.
  intros Hb. unfold substr_from, rel_index.
  destruct (Z.ltb_spec b 0); [lia |].
  destruct (Z.le_gt_cases b (len s)) as [Hle | Hgt].
  - rewrite Z.min_l by lia. reflexivity.
  - rewrite Z.min_r by lia.
    rewrite !drop_ge; [reflexivity | unfold len in *; lia ..].
Qed.

(** Cutting a string at two indices and putting the middle back. *)
Lemma splice_same s b e :
  0 <= b <= e -> e <= len s ->
  substr s 0 b ++ slice s b e ++ substr_from s e = s.
Proof.
  intros Hb He.
  rewrite substr_0_take, substr_from_drop, slice_take_drop by lia.
  replace (Z.to_nat e) with (Z.to_nat b + Z.to_nat (e - b))%nat by lia.
  rewrite <- drop_drop, take_drop.
  apply take_drop.
Qed.

End StringFacts.

(** ** The matcher and the search of [exec] *)

Section RegexFacts.

Implicit Types (s rest : jsstring) (r : regex) (p : char -> bool).

Lemma orelse_Some {A} (x y : option A) (v : A) :
  orelse x y = Some v -> x = Some v \/ y = Some v.
Proof. destruct x; simpl; auto. Qed.

(** A starred class hands a suffix of its input to its continuation. *)
Lemma star_consumes p s k rest :
  star p s k = Some rest ->
  exists s1, k s1 = Some rest /\ (length s1 <= length s)%nat.
Proof.
  induction s as [| c s IH]; simpl.
  - intros H. exists []. auto.
  - destruct (p c).
    + intros H. apply orelse_Some in H as [H | H].
      * destruct (IH H) as (s1 & Hk & Hlen). exists s1. split; [done | lia].
      * exists (c :: s). auto.
    + intros H. exists (c :: s). auto.
Qed.

(** Every match of [r] takes at least [min_len r] code units of the input. *)
Lemma matcher_consumes r : forall s k rest,
  matcher r s k = Some rest ->
  exists s1, k s1 = Some rest /\ (length s1 + min_len r <= length s)%nat.
Proof.
  induction r as [p | p | p | p | r1 IH1 r2 IH2 | r1 IH1 r2 IH2];
    intros s k rest; simpl.
  - destruct s as [| c s]; [done |].
    destruct (p c); [| done].
    intros H. exists s. simpl. split; [done | lia].
  - destruct s as [| c s].
    + intros H. exists []. split; [done | simpl; lia].
    + destruct (p c).
      * intros H. apply orelse_Some in H as [H | H].
        -- exists s. split; [done | simpl; lia].
        -- exists (c :: s). split; [done | lia].
      * intros H. exists (c :: s). split; [done | lia].
  - intros H. apply star_consumes in H as (s1 & Hk & Hlen).
    exists s1. split; [done | lia].
  - destruct s as [| c s]; [done |].
    destruct (p c); [| done].
    intros H. apply star_consumes in H as (s1 & Hk & Hlen).
    exists s1. split; [done | simpl; lia].
  - intros H. apply IH1 in H as (s1 & H & Hlen1).
    apply IH2 in H as (s2 & Hk & Hlen2).
    exists s2. split; [done | lia].
  - intros H. apply orelse_Some in H as [H | H].
    + apply IH1 in H as (s1 & Hk & Hlen). exists s1. split; [done | lia].
    + apply IH2 in H as (s1 & Hk & Hlen). exists s1. split; [done | lia].
Qed.

Lemma match_here_consumes r s rest :
  match_here r s = Some rest -> (length rest + min_len r <= length s)%nat.
Proof.
  intros H. apply matcher_consumes in H as (s1 & Hk & Hlen).
  injection Hk as ->. exact Hlen.
Qed.

(** A match found from position [i] starts at or after [i], takes at least
    [min_len r] code units and ends within the text. *)
Lemma search_bounds r s : forall i index lastIndex,
  search r s i = Some (index, lastIndex) ->
  i <= index /\ index + Z.of_nat (min_len r) <= lastIndex
  /\ lastIndex <= i + len s.
Proof.
  induction s as [| c s IH]; intros i index lastIndex; simpl.
  - destruct (match_here r []) as [rest |] eqn:Hm; [| done].
    apply match_here_consumes in Hm.
    intros [= <- <-]. unfold len. simpl in *. lia.
  - destruct (match_here r (c :: s)) as [rest |] eqn:Hm.
    + apply match_here_consumes in Hm.
      intros [= <- <-]. unfold len. simpl in *. lia.
    + intros H. apply IH in H. unfold len in *. simpl. lia.
Qed.

Lemma exec_bounds r text i index lastIndex :
  exec r text i = Some (index, lastIndex) ->
  Z.max i 0 <= index /\ index + Z.of_nat (min_len r) <= lastIndex
  /\ lastIndex <= len text.
Proof.
  unfold exec.
  destruct (Z.ltb_spec (len text) (Z.max i 0)) as [Hlt | Hge]; [done |].
  intros H. apply search_bounds in H.
  unfold len in *. rewrite length_drop in H. lia.
Qed.

(** The search for one code unit of a class. *)
Lemma match_here_chr p s :
  match_here (Chr p) s =
    match s with
    | c :: s' => if p c then Some s' else None
    | [] => None
    end.
Proof. reflexivity. Qed.

(** It stops on a code unit of the class. *)
Lemma search_chr_hit p s : forall i index lastIndex,
  search (Chr p) s i = Some (index, lastIndex) ->
  i <= index /\ exists c, s !! Z.to_nat (index - i) = Some c /\ p c = true.
Proof.
  induction s as [| c s IH]; intros i index lastIndex.
  - simpl. done.
  - cbn [search]. rewrite match_here_chr.
    destruct (p c) eqn:Hp.
    + intros [= <- _]. split; [lia |].
      exists c. rewrite Z.sub_diag. done.
    + intros H. apply IH in H as (Hle & c' & Hc' & Hp').
      split; [lia |]. exists c'. split; [| done].
      replace (Z.to_nat (index - i)) with (S (Z.to_nat (index - (i + 1))))
        by lia.
      exact Hc'.
Qed.


(** It fails exactly when no code unit is in the class. *)
Lemma search_chr_none p s i :
  search (Chr p) s i = None <-> forallb (fun c => negb (p c)) s = true.
Proof.
  revert i. induction s as [| c s IH]; intros i.
  - simpl. done.
  - cbn [search forallb]. rewrite match_here_chr.
    destruct (p c); simpl.
    + split; done.
    + apply IH.
Qed.

End RegexFacts.

(** ** [extractWord] *)

Section ExtractWordFacts.

Implicit Types (text : jsstring) (wi : WordInfo).

Lemma min_len_WORD_DEFINITION : min_len WORD_DEFINITION = 1%nat.
Proof. reflexivity. Qed.

Lemma clamp_bounds text o :
  len text <> 0 -> 0 <= clamp text o <= len text - 1.
Proof.
  intros Hne. pose proof (len_nonneg text). unfold clamp.
  destruct (Z.ltb_spec o 0); [lia |].
  destruct (Z.geb_spec o (len text)); lia.
Qed.

(** An offset within the string is kept, but for the length itself, which
    becomes the index of the last code unit. *)
Lemma clamp_in_range text o :
  0 <= o <= len text -> len text <> 0 ->
  clamp text o = if o =? len text then len text - 1 else o.
Proof.
  intros Ho Hne. unfold clamp.
  destruct (Z.ltb_spec o 0); [lia |].
  destruct (Z.geb_spec o (len text)), (Z.eqb_spec o (len text)); lia.
Qed.

(** The loop leaves [left] as it was or sets it to the start of a match at
    or before the offset. *)
Lemma scan_left_range fuel : forall text o lastIndex left0,
  let l := scan_left fuel text o lastIndex left0 in
  l = left0 \/ 0 <= l <= o.
Proof.
  induction fuel as [| fuel IH]; intros text o lastIndex left0; simpl.
  - by left.
  - destruct (exec WORD_DEFINITION text lastIndex) as [[index li] |] eqn:He;
      [| by left].
    destruct (Z.leb_spec index o) as [Hle | Hgt]; [| by left].
    apply exec_bounds in He.
    destruct (IH text o li (if o <? li then index else left0)) as [-> | Hr];
      [| by right].
    destruct (o <? li); [right; lia | by left].
Qed.

(** The loop ends within [text.length + 1] turns: any fuel above the
    distance from [lastIndex] to the end of the text gives the same
    result. *)
Lemma scan_left_fuel_enough fuel1 : forall fuel2 text o lastIndex left0,
  len text - Z.max lastIndex 0 < Z.of_nat fuel1 ->
  len text - Z.max lastIndex 0 < Z.of_nat fuel2 ->
  scan_left fuel1 text o lastIndex left0
  = scan_left fuel2 text o lastIndex left0.
Proof.
  induction fuel1 as [| fuel1 IH]; intros fuel2 text o lastIndex left0 H1 H2.
  - destruct fuel2 as [| fuel2]; [done |]. simpl.
    unfold exec.
    destruct (Z.ltb_spec (len text) (Z.max lastIndex 0)); [done | lia].
  - destruct fuel2 as [| fuel2]; simpl.
    + unfold exec.
      destruct (Z.ltb_spec (len text) (Z.max lastIndex 0)); [done | lia].
    + destruct (exec WORD_DEFINITION text lastIndex) as [[index li] |] eqn:He;
        [| done].
      destruct (index <=? o); [| done].
      apply exec_bounds in He. rewrite min_len_WORD_DEFINITION in He.
      apply IH; lia.
Qed.

(** So the fuel [extractWord] gives the loop never runs out: more fuel
    changes nothing. *)
Lemma extractWord_fuel text o left0 (fuel : nat) :
  (length text < fuel)%nat ->
  let lastIndex := lastIndexOf text (ch " ") (o - 1) + 1 in
  scan_left fuel text o lastIndex left0
  = scan_left (S (length text)) text o lastIndex left0.
Proof.
  intros Hfuel lastIndex.
  apply scan_left_fuel_enough; unfold len; lia.
Qed.

(** What a non-null result of [extractWord] is made of. *)
Lemma extractWord_inv text o wi :
  extractWord text o = Some wi ->
  len text <> 0
  /\ left wi = scan_left (S (length text)) text (clamp text o)
                 (lastIndexOf text (ch " ") (clamp text o - 1) + 1) (-1)
  /\ -1 < left wi
  /\ ((exists index lastIndex,
         exec WORD_SEPARATORS text (clamp text o) = Some (index, lastIndex)
         /\ right wi = index /\ word wi = slice text (left wi) index)
      \/ (exec WORD_SEPARATORS text (clamp text o) = None
          /\ right wi = len text /\ word wi = slice_from text (left wi))).
Proof.
  unfold extractWord.
  destruct (Z.eqb_spec (len text) 0) as [| Hne]; [done |].
  set (off := clamp text o).
  set (l := scan_left _ _ _ _ _).
  destruct (Z.leb_spec l (-1)) as [| Hl]; [done |].
  pose proof (clamp_bounds text o Hne) as Hoff. fold off in Hoff.
  destruct (exec WORD_SEPARATORS text off) as [[index li] |] eqn:He.
  - pose proof (exec_bounds _ _ _ _ _ He) as Hb.
    destruct (Z.ltb_spec index 0); [lia |].
    intros [= <-]. simpl. repeat split; try done.
    left. by exists index, li.
  - simpl. intros [= <-]. simpl. repeat split; try done.
    by right.
Qed.

(** The boundaries enclose the offset and lie within the text. *)
Lemma extractWord_bounds text o wi :
  extractWord text o = Some wi ->
  0 <= left wi <= clamp text o /\ clamp text o <= right wi <= len text.
Proof.
  intros H. apply extractWord_inv in H as (Hne & Hl & Hpos & Hr).
  pose proof (clamp_bounds text o Hne) as Hoff.
  pose proof (scan_left_range (S (length text)) text (clamp text o)
                (lastIndexOf text (ch " ") (clamp text o - 1) + 1) (-1))
    as Hrange.
  cbv zeta in Hrange. rewrite <- Hl in Hrange.
  split; [lia |].
  destruct Hr as [(index & li & He & -> & _) | (_ & -> & _)]; [| lia].
  apply exec_bounds in He. simpl in He. lia.
Qed.

(** The word is the text between the boundaries. *)
Lemma extractWord_word text o wi :
  extractWord text o = Some wi ->
  word wi = slice text (left wi) (right wi).
Proof.
  intros H. apply extractWord_inv in H as (_ & _ & _ & Hr).
  destruct Hr as [(index & li & _ & -> & ->) | (_ & -> & ->)]; done.
Qed.




End ExtractWordFacts.

(** ** The word span of [extractWord] *)




(** C4: what the code returns for the decimal token. In the text
    [price 3.14 end] at offset 8 the left boundary is 6, the start of the
    token [3.14], but the search for the right boundary stops at once on
    the digit at offset 8: the range [)-=] of the class of
    [WORD_SEPARATORS] holds the digits. The span is [{6, 8, "3."}] and not
    [{6, 10, "3.14"}]. *)
Theorem extractWord_decimal_token :
  extractWord (str "price 3.14 end") 8
  = Some {| left := 6; right := 8; word := str "3." |}
  /\ is_separator (ch "1") = true
  /\ extractWord (str "price 3.14 end") 8
     <> Some {| left := 6; right := 10; word := str "3.14" |}.
Proof.
  split; [reflexivity |]. split; [reflexivity |].
  vm_compute. discriminate.
Qed.



(** ** [replaceWordInline] *)

Section ReplaceFacts.

Implicit Types (line wordCursor : Cursor) (st : State) (b : Block).
Implicit Types (replacement : jsstring) (setCursor : bool) (l : loc).

Lemma set_text_same b : set_text b (text b) = b.
Proof. by destruct b. Qed.

(** The call on arguments that meet the preconditions. *)
Lemma replaceWordInline_ok line wordCursor replacement setCursor st l b :
  preconditions line wordCursor st l b ->
  let left := offset (start wordCursor) in
  let right := offset (end_ wordCursor) in
  let b' :=
    set_text b
      (substr (text b) 0 left ++ replacement ++ substr_from (text b) right) in
  let caret := with_offset (start wordCursor) (left + len replacement) in
  let st1 := set_heap st (<[l := b']> (heap st)) in
  let st2 :=
    if setCursor then set_cursor st1 {| start := caret; end_ := caret |}
    else st1 in
  replaceWordInline line wordCursor replacement setCursor st
  = Ok (emit (emit (emit st2 PartialRender) DispatchSelectionChange)
          DispatchChange)
       (if setCursor then {| start := caret; end_ := caret |} else line).
Proof.
  intros (Hw & Hl & Ho & Hm & Hb & Hh & Hlen). simpl.
  unfold replaceWordInline.
  rewrite Hw, Hl in *. rewrite <- Hm.
  rewrite String.eqb_refl. simpl.
  destruct (Z.gtb_spec (offset (start wordCursor)) (offset (end_ wordCursor)));
    [lia |].
  rewrite Hb, Hh.
  destruct (Z.ltb_spec (len (text b)) (offset (end_ wordCursor))); [lia |].
  by destruct setCursor.
Qed.

End ReplaceFacts.

(** C1: on arguments that meet the five preconditions (offsets are
    non-negative), [replaceWordInline] sets the text of the owning block to
    [text[0..left] + replacement + text[right..]], where [left] and [right]
    are the offsets of the word cursor; on the buffer [abc def] with the
    word range (4, 7) and the replacement [xyz] the text becomes
    [abc xyz]. With [setCursor], the start and end of the line and of the
    active cursor of the document become one position: the start of the
    word cursor with the offset [left + replacement.length]. *)
Theorem replaceWordInline_splice (line wordCursor : Cursor)
    (replacement : jsstring) (setCursor : bool) (st : State)
    (l : loc) (b : Block) :
  preconditions line wordCursor st l b ->
  0 <= offset (start wordCursor) ->
  let left := offset (start wordCursor) in
  let right := offset (end_ wordCursor) in
  let caret := with_offset (start wordCursor) (left + len replacement) in
  exists st' line',
    replaceWordInline line wordCursor replacement setCursor st = Ok st' line'
    /\ text <$> heap st' !! l
       = Some (take (Z.to_nat left) (text b) ++ replacement
               ++ drop (Z.to_nat right) (text b))
    /\ (text b = str "abc def" -> left = 4 -> right = 7 ->
        replacement = str "xyz" ->
        text <$> heap st' !! l = Some (str "abc xyz"))
    /\ (setCursor = true ->
        start line' = caret /\ end_ line' = caret
        /\ cursor st' = {| start := caret; end_ := caret |}
        /\ offset caret = left + len replacement).
Proof.
  intros Hpre Hleft left right caret.
  pose proof Hpre as (_ & _ & Ho & _ & _ & _ & _).
  eexists _, _. split; [apply (replaceWordInline_ok _ _ _ _ _ _ _ Hpre) |].
  assert (Htext :
    text <$> heap (emit (emit (emit
      (if setCursor
       then set_cursor
              (set_heap st (<[l := set_text b
                 (substr (text b) 0 left ++ replacement
                  ++ substr_from (text b) right)]> (heap st)))
              {| start := caret; end_ := caret |}
       else set_heap st (<[l := set_text b
                 (substr (text b) 0 left ++ replacement
                  ++ substr_from (text b) right)]> (heap st)))
      PartialRender) DispatchSelectionChange) DispatchChange) !! l
    = Some (take (Z.to_nat left) (text b) ++ replacement
            ++ drop (Z.to_nat right) (text b))).
  { destruct setCursor; simpl; rewrite lookup_insert_eq; simpl;
      rewrite substr_0_take, substr_from_drop by (subst left right; lia);
      reflexivity. }
  split; [exact Htext |]. split.
  - intros Hb Hl Hr Hrep. etransitivity; [exact Htext |].
    rewrite Hb, Hl, Hr, Hrep. reflexivity.
  - intros ->. simpl. done.
Qed.

Lemma replaceWordInline_splice_witness :
  exists st' line',
    replaceWordInline Sample.line1 Sample.word_def (str "xyz") true
      (Sample.doc "ag-2") = Ok st' line'
    /\ text <$> heap st' !! 1%positive = Some (str "abc xyz")
    /\ cursor st' = Sample.caret "ag-1" 7 None.
Proof.
  destruct (replaceWordInline_splice Sample.line1 Sample.word_def
              (str "xyz") true (Sample.doc "ag-2") 1%positive
              Sample.paragraph)
    as (st' & line' & Hcall & Htext & _ & Hcur).
  - unfold preconditions. simpl. repeat split; try reflexivity; lia.
  - simpl. lia.
  - exists st', line'. split; [exact Hcall |]. split; [exact Htext |].
    destruct (Hcur eq_refl) as (_ & _ & Hc & _). exact Hc.
Defined.

(** C2: a call that violates one of the five preconditions throws the
    error of the first one violated, in the order of the checks, and
    throws it in the state the call started in: no text, no cursor and no
    notification has changed. *)
Theorem replaceWordInline_rejects (line wordCursor : Cursor)
    (replacement : jsstring) (setCursor : bool) (st : State) :
  let ws := start wordCursor in
  let we := end_ wordCursor in
  let ls := start line in
  let le := end_ line in
  let call := replaceWordInline line wordCursor replacement setCursor st in
  (key ws <> key we -> call = Throw st InvalidWordCursor)
  /\ (key ws = key we -> key ls <> key le ->
      call = Throw st InvalidLineCursor)
  /\ (key ws = key we -> key ls = key le -> offset ws > offset we ->
      call = Throw st InvalidOffsetOrder)
  /\ (key ws = key we -> key ls = key le -> offset ws <= offset we ->
      key ls <> key we -> call = Throw st CursorMismatch)
  /\ (forall l b,
        key ws = key we -> key ls = key le -> offset ws <= offset we ->
        key ls = key we -> block ls = Some l -> heap st !! l = Some b ->
        len (text b) < offset we -> call = Throw st OutOfBounds)
  /\ (key ws <> key we \/ key ls <> key le \/ offset ws > offset we
      \/ key ls <> key we
      \/ (exists l b, block ls = Some l /\ heap st !! l = Some b
                      /\ len (text b) < offset we) ->
      exists e, call = Throw st e
        /\ In e [InvalidWordCursor; InvalidLineCursor; InvalidOffsetOrder;
                 CursorMismatch; OutOfBounds]).
Proof.
  intros ws we ls le call. subst call. unfold replaceWordInline.
  fold ws we ls le.
  destruct (String.eqb_spec (key ws) (key we)) as [Hw | Hw]; simpl.
  2: { repeat split; try done.
       intros _. eexists. split; [done |]. simpl. tauto. }
  destruct (String.eqb_spec (key ls) (key le)) as [Hl | Hl]; simpl.
  2: { repeat split; try done.
       intros _. eexists. split; [done |]. simpl. tauto. }
  destruct (Z.gtb_spec (offset ws) (offset we)) as [Ho | Ho].
  { repeat split; try done; try lia.
    intros _. eexists. split; [done |]. simpl. tauto. }
  destruct (String.eqb_spec (key ls) (key we)) as [Hm | Hm]; simpl.
  2: { repeat split; try done.
       intros _. eexists. split; [done |]. simpl. tauto. }
  repeat split; try done; try lia.
  - intros l b _ _ _ _ -> -> Hlen.
    destruct (Z.ltb_spec (len (text b)) (offset we)); [done | lia].
  - intros [? | [? | [? | [? | (l & b & -> & -> & Hlen)]]]];
      try done; try lia.
    destruct (Z.ltb_spec (len (text b)) (offset we)); [| lia].
    eexists. split; [done |]. simpl. tauto.
Qed.

(** The word range of the specification's example, [left = 5] and
    [right = 2], is rejected. *)
Lemma replaceWordInline_rejects_witness :
  replaceWordInline Sample.line1
    {| start := Sample.at_ "ag-1" 5 None; end_ := Sample.at_ "ag-1" 2 None |}
    (str "xyz") true (Sample.doc "ag-1")
  = Throw (Sample.doc "ag-1") InvalidOffsetOrder.
Proof.
  apply (replaceWordInline_rejects Sample.line1
           {| start := Sample.at_ "ag-1" 5 None;
              end_ := Sample.at_ "ag-1" 2 None |}
           (str "xyz") true (Sample.doc "ag-1")).
  - reflexivity.
  - reflexivity.
  - simpl. lia.
Defined.

(** C8: replacing a word by itself changes no text. On arguments that meet
    the preconditions, a call whose replacement is the text between the
    offsets of the word cursor leaves every block as it was, and with
    [setCursor] the caret gets the offset [left + replacement.length]. *)
Theorem replaceWordInline_same_word (line wordCursor : Cursor)
    (setCursor : bool) (st : State) (l : loc) (b : Block) :
  preconditions line wordCursor st l b ->
  0 <= offset (start wordCursor) ->
  let left := offset (start wordCursor) in
  let right := offset (end_ wordCursor) in
  let replacement := slice (text b) left right in
  let caret := with_offset (start wordCursor) (left + len replacement) in
  exists st' line',
    replaceWordInline line wordCursor replacement setCursor st = Ok st' line'
    /\ heap st' = heap st
    /\ text <$> heap st' !! l = Some (text b)
    /\ (setCursor = true ->
        start line' = caret /\ end_ line' = caret
        /\ cursor st' = {| start := caret; end_ := caret |}
        /\ offset caret = left + len replacement).
Proof.
  intros Hpre Hleft left right replacement caret.
  pose proof Hpre as (_ & _ & Ho & _ & _ & Hh & Hlen).
  pose proof (replaceWordInline_ok _ _ replacement setCursor _ _ _ Hpre)
    as Hok.
  cbv zeta in Hok. fold left right in Hok.
  assert (Hsame :
    set_text b (substr (text b) 0 left ++ replacement
                ++ substr_from (text b) right) = b).
  { subst replacement. rewrite splice_same by (subst left right; lia).
    apply set_text_same. }
  rewrite Hsame, (insert_id _ _ _ Hh) in Hok.
  eexists _, _. split; [exact Hok |].
  destruct setCursor; simpl; rewrite Hh; simpl; repeat split; done.
Qed.

Lemma replaceWordInline_same_word_witness :
  exists st' line',
    replaceWordInline Sample.line1 Sample.word_def (str "def") true
      (Sample.doc "ag-2") = Ok st' line'
    /\ heap st' = heap (Sample.doc "ag-2")
    /\ cursor st' = Sample.caret "ag-1" 7 None.
Proof.
  destruct (replaceWordInline_same_word Sample.line1 Sample.word_def
              true (Sample.doc "ag-2") 1%positive Sample.paragraph)
    as (st' & line' & Hcall & Hheap & _ & Hcur).
  - unfold preconditions. simpl. repeat split; try reflexivity; lia.
  - simpl. lia.
  - exists st', line'. split; [exact Hcall |]. split; [exact Hheap |].
    destruct (Hcur eq_refl) as (_ & _ & Hc & _). exact Hc.
Defined.

(** ** [validateLineCursor] *)

(** C5: what the code does on the selections its first test is written
    for. The operands of the test are joined by [&&], not by [||]: an
    absent selection, and one without a start or an end position, make the
    call throw a [TypeError] instead of returning [false], and positions
    without an offset are not looked at, so that such a selection on one
    line of prose is accepted. *)
Theorem validateLineCursor_missing_parts :
  (forall h, validateLineCursor h None = Raise TypeError)
  /\ (forall h e a,
        validateLineCursor h
          (Some {| Raw.start := None; Raw.end_ := e; Raw.affiliation := a |})
        = Raise TypeError)
  /\ (forall h s a,
        validateLineCursor h
          (Some {| Raw.start := s; Raw.end_ := None; Raw.affiliation := a |})
        = Raise TypeError)
  /\ validateLineCursor (heap (Sample.doc "ag-1"))
       (Some {| Raw.start :=
                  Some {| Raw.key := "ag-1"; Raw.offset := None;
                          Raw.block := Some 1%positive |};
                Raw.end_ :=
                  Some {| Raw.key := "ag-1"; Raw.offset := None;
                          Raw.block := None |};
                Raw.affiliation := None |})
     = Return true.
Proof.
  split; [reflexivity |]. split; [reflexivity |]. split.
  - intros h [s |] a; reflexivity.
  - reflexivity.
Qed.

(** C6: for a selection with a start and an end position,
    [validateLineCursor] returns [false] when the keys of the two differ or
    the start position has no block, and when the block of the start
    position has the function type [codeContent] and a language. *)
Theorem validateLineCursor_rejects (h : gmap loc Block)
    (sel : Raw.Selection) (s e : Raw.Position) :
  Raw.start sel = Some s ->
  Raw.end_ sel = Some e ->
  (Raw.key s <> Raw.key e \/ Raw.block s = None ->
   validateLineCursor h (Some sel) = Return false)
  /\ (forall l b,
        Raw.block s = Some l -> h !! l = Some b ->
        functionType b = Some "codeContent"%string -> is_Some (lang b) ->
        validateLineCursor h (Some sel) = Return false).
Proof.
  intros Hs He. unfold validateLineCursor. rewrite Hs, He. split.
  - intros [Hk | Hb].
    + destruct (String.eqb_spec (Raw.key s) (Raw.key e)); done.
    + rewrite Hb. rewrite bool_decide_eq_false_2 by (by intros [? ?]).
      by rewrite orb_true_r.
  - intros l b Hb Hl Hf Hlang. rewrite Hb. simpl. rewrite Hl.
    destruct (negb _ || false); [done |].
    by rewrite !bool_decide_eq_true_2.
Qed.

Lemma validateLineCursor_rejects_witness :
  validateLineCursor (heap (Sample.doc "ag-1"))
    (Some (raw_cursor (Sample.caret "ag-2" 5 (Some 2%positive))))
  = Return false.
Proof.
  apply (validateLineCursor_rejects (heap (Sample.doc "ag-1"))
           (raw_cursor (Sample.caret "ag-2" 5 (Some 2%positive)))
           (raw_position (Sample.at_ "ag-2" 5 (Some 2%positive)))
           (raw_position (Sample.at_ "ag-2" 5 (Some 2%positive)))
           eq_refl eq_refl)
    with (l := 2%positive) (b := Sample.code_line).
  - reflexivity.
  - reflexivity.
  - reflexivity.
  - by exists "js"%string.
Defined.

(** ** [_replaceCurrentWordInlineUnsafe] *)

Section UnsafeFacts.

Implicit Types (range : Cursor) (st : State) (b : Block) (l : loc).

(** On a cursor range whose line has a block, the validation returns. *)
Lemma validate_attached st range l b :
  getBlock st (key (start range)) = Some l ->
  heap st !! l = Some b ->
  exists ok,
    validateLineCursor (heap st) (Some (raw_cursor (attach_block st range)))
    = Return ok.
Proof.
  intros Hg Hh. unfold validateLineCursor, attach_block. simpl.
  rewrite Hg. simpl. rewrite Hh.
  destruct (negb _ || _); [by eexists |].
  destruct (_ && _); by eexists.
Qed.

(** A cursor that passes the validation is on one line. *)
Lemma validate_true_keys h (c : Cursor) :
  validateLineCursor h (Some (raw_cursor c)) = Return true ->
  key (start c) = key (end_ c).
Proof.
  unfold validateLineCursor. simpl.
  destruct (String.eqb_spec (key (start c)) (key (end_ c))); done.
Qed.

(** The fourth check of [replaceWordInline]. *)
Lemma replaceWordInline_mismatch (line wordCursor : Cursor)
    (replacement : jsstring) (setCursor : bool) st :
  key (start wordCursor) = key (end_ wordCursor) ->
  key (start line) = key (end_ line) ->
  offset (start wordCursor) <= offset (end_ wordCursor) ->
  key (start line) <> key (end_ wordCursor) ->
  replaceWordInline line wordCursor replacement setCursor st
  = Throw st CursorMismatch.
Proof.
  intros Hw Hl Ho Hm. unfold replaceWordInline.
  rewrite Hw, Hl in *. rewrite String.eqb_refl. simpl.
  destruct (String.eqb_spec (key (end_ line)) (key (end_ line))); [| done].
  destruct (Z.gtb_spec (offset (start wordCursor)) (offset (end_ wordCursor)));
    [lia |].
  simpl.
  destruct (String.eqb_spec (key (end_ line)) (key (end_ wordCursor))); done.
Qed.

(** When [this.cursor] is on the line of the selection, the word is
    replaced and the call returns [true]. *)
Lemma unsafe_replaces (deepClone : Position -> Position) range
    (word replacement : jsstring) st l b (wi : WordInfo) :
  (forall p, key (deepClone p) = key p) ->
  validateLineCursor (heap st) (Some (raw_cursor (attach_block st range)))
  = Return true ->
  getBlock st (key (start range)) = Some l ->
  heap st !! l = Some b ->
  extractWord (text b) (offset (start range)) = Some wi ->
  SpellChecker.word wi = word ->
  key (start (cursor st)) = key (start range) ->
  key (end_ (cursor st)) = key (start range) ->
  exists st',
    _replaceCurrentWordInlineUnsafe deepClone range word replacement st
    = Ok st' true
    /\ text <$> heap st' !! l
       = Some (take (Z.to_nat (left wi)) (text b) ++ replacement
               ++ drop (Z.to_nat (right wi)) (text b)).
Proof.
  intros Hclone Hv Hg Hh He Hw Hcs Hce.
  pose proof (extractWord_bounds _ _ _ He) as [Hl Hr].
  pose proof (validate_true_keys _ _ Hv) as Hk. simpl in Hk.
  unfold _replaceCurrentWordInlineUnsafe. rewrite Hv.
  simpl. rewrite Hg. simpl. rewrite Hh, He.
  rewrite bool_decide_eq_true_2 by done. simpl.
  rewrite (replaceWordInline_ok _ _ _ _ _ l b).
  - eexists. split; [done |]. simpl. rewrite lookup_insert_eq. simpl.
    rewrite substr_0_take, substr_from_drop by lia. done.
  - unfold preconditions. simpl. rewrite !Hclone.
    repeat split; try done; try congruence; lia.
Qed.

End UnsafeFacts.

(** C7: when the word extracted from the text of the block of the
    selection differs from the argument [word],
    [_replaceCurrentWordInlineUnsafe] returns [false] after a warning: no
    block, and so no text, has changed, nor has the active cursor, and no
    notification was sent. *)
Theorem unsafe_word_mismatch (deepClone : Position -> Position)
    (range : Cursor) (word replacement : jsstring) (st : State)
    (l : loc) (b : Block) (wi : WordInfo) :
  getBlock st (key (start range)) = Some l ->
  heap st !! l = Some b ->
  extractWord (text b) (offset (start range)) = Some wi ->
  SpellChecker.word wi <> word ->
  exists st',
    _replaceCurrentWordInlineUnsafe deepClone range word replacement st
    = Ok st' false
    /\ heap st' = heap st
    /\ cursor st' = cursor st
    /\ events st' = events st ++ [ConsoleWarn].
Proof.
  intros Hg Hh He Hne.
  destruct (validate_attached st range l b Hg Hh) as [ok Hv].
  unfold _replaceCurrentWordInlineUnsafe. rewrite Hv.
  destruct ok.
  - simpl. rewrite Hg. simpl. rewrite Hh, He.
    rewrite bool_decide_eq_false_2 by done. simpl.
    by eexists.
  - by eexists.
Qed.

(** The selection is on the word [def] of the line [abc def] and the word
    reported is [teh]. *)
Lemma unsafe_word_mismatch_witness :
  exists st',
    _replaceCurrentWordInlineUnsafe id (Sample.caret "ag-1" 5 None)
      (str "teh") (str "the") (Sample.doc "ag-1")
    = Ok st' false
    /\ heap st' = heap (Sample.doc "ag-1")
    /\ cursor st' = cursor (Sample.doc "ag-1")
    /\ events st' = events (Sample.doc "ag-1") ++ [ConsoleWarn].
Proof.
  apply (unsafe_word_mismatch id (Sample.caret "ag-1" 5 None)
           (str "teh") (str "the") (Sample.doc "ag-1") 1%positive
           Sample.paragraph
           {| left := 4; right := 7; word := str "def" |}).
  - reflexivity.
  - reflexivity.
  - reflexivity.
  - vm_compute. discriminate.
Defined.

(** C10: the word cursor handed to [replaceWordInline] is made from
    [this.cursor], not from the selection that was validated and read.
    When the selection passes the validation and the word extracted is the
    word reported, but the line of [this.cursor] is not the line of the
    selection, the call throws the cursor mismatch error of
    [replaceWordInline] and does not return [false]. [deepClone] keeps the
    key of a position. *)
Theorem unsafe_cursor_mismatch (deepClone : Position -> Position)
    (range : Cursor) (word replacement : jsstring) (st : State)
    (l : loc) (b : Block) (wi : WordInfo) :
  (forall p, key (deepClone p) = key p) ->
  validateLineCursor (heap st) (Some (raw_cursor (attach_block st range)))
  = Return true ->
  getBlock st (key (start range)) = Some l ->
  heap st !! l = Some b ->
  extractWord (text b) (offset (start range)) = Some wi ->
  SpellChecker.word wi = word ->
  key (start (cursor st)) = key (end_ (cursor st)) ->
  key (end_ (cursor st)) <> key (start range) ->
  offsetToWordCursor deepClone (cursor st) (left wi) (right wi)
  <> offsetToWordCursor deepClone (attach_block st range)
       (left wi) (right wi)
  /\ _replaceCurrentWordInlineUnsafe deepClone range word replacement st
     = Throw st CursorMismatch.
Proof.
  intros Hclone Hv Hg Hh He Hw Hcur Hdiff. split.
  - intros Heq. apply (f_equal (fun c => key (end_ c))) in Heq.
    simpl in Heq. rewrite !Hclone in Heq.
    apply validate_true_keys in Hv. simpl in Hv. congruence.
  - unfold _replaceCurrentWordInlineUnsafe. rewrite Hv.
    simpl. rewrite Hg. simpl. rewrite Hh, He.
    rewrite bool_decide_eq_true_2 by done. simpl.
    pose proof (extractWord_bounds _ _ _ He) as [Hl Hr].
    rewrite replaceWordInline_mismatch; [done | ..].
    + simpl. by rewrite !Hclone.
    + apply validate_true_keys in Hv. exact Hv.
    + simpl. lia.
    + simpl. rewrite Hclone. congruence.
Qed.

(** The selection is on the word [def] of the line [ag-1], and the active
    cursor of the document is on the line [ag-2]. *)
Lemma unsafe_cursor_mismatch_witness :
  _replaceCurrentWordInlineUnsafe id (Sample.caret "ag-1" 5 None)
    (str "def") (str "fed") (Sample.doc "ag-2")
  = Throw (Sample.doc "ag-2") CursorMismatch.
Proof.
  apply (unsafe_cursor_mismatch id (Sample.caret "ag-1" 5 None)
           (str "def") (str "fed") (Sample.doc "ag-2") 1%positive
           Sample.paragraph
           {| left := 4; right := 7; word := str "def" |}).
  - reflexivity.
  - reflexivity.
  - reflexivity.
  - reflexivity.
  - reflexivity.
  - reflexivity.
  - reflexivity.
  - vm_compute. discriminate.
Defined.

(** * Further properties of the code *)

(** ** What a match is made of *)

Section MatchFacts.

Implicit Types (s rest m : jsstring) (r : regex) (p : char -> bool).

Lemma star_splits p s k rest :
  star p s k = Some rest ->
  exists m s1, s = m ++ s1 /\ Forall (fun c => p c = true) m
               /\ k s1 = Some rest.
Proof.
  induction s as [| c s IH]; simpl.
  - intros H. exists [], []. auto.
  - destruct (p c) eqn:Hp.
    + intros H. apply orelse_Some in H as [H | H].
      * destruct (IH H) as (m & s1 & -> & Hm & Hk).
        exists (c :: m), s1. repeat split; [| done]. by constructor.
      * exists [], (c :: s). auto.
    + intros H. exists [], (c :: s). auto.
Qed.

(** A match of [r] is a prefix of the input of at least [min_len r] code
    units, all of them from the classes of [r]. *)
Lemma matcher_splits r : forall s k rest,
  matcher r s k = Some rest ->
  exists m s1, s = m ++ s1 /\ Forall (fun c => chars r c = true) m
               /\ (min_len r <= length m)%nat /\ k s1 = Some rest.
Proof.
  induction r as [p | p | p | p | r1 IH1 r2 IH2 | r1 IH1 r2 IH2];
    intros s k rest; simpl.
  - destruct s as [| c s]; [done |].
    destruct (p c) eqn:Hp; [| done].
    intros H. exists [c], s. repeat split; [| simpl; lia | done].
    by constructor.
  - destruct s as [| c s].
    + intros H. exists [], []. repeat split; [done | simpl; lia | done].
    + destruct (p c) eqn:Hp.
      * intros H. apply orelse_Some in H as [H | H].
        -- exists [c], s. repeat split; [| simpl; lia | done].
           by constructor.
        -- exists [], (c :: s). repeat split; [done | simpl; lia | done].
      * intros H. exists [], (c :: s).
        repeat split; [done | simpl; lia | done].
  - intros H. apply star_splits in H as (m & s1 & -> & Hm & Hk).
    exists m, s1. repeat split; [done | lia | done].
  - destruct s as [| c s]; [done |].
    destruct (p c) eqn:Hp; [| done].
    intros H. apply star_splits in H as (m & s1 & -> & Hm & Hk).
    exists (c :: m), s1. repeat split; [| simpl; lia | done].
    by constructor.
  - intros H. apply IH1 in H as (m1 & s1 & -> & Hm1 & Hl1 & H).
    apply IH2 in H as (m2 & s2 & -> & Hm2 & Hl2 & Hk).
    exists (m1 ++ m2), s2. rewrite length_app, <- app_assoc.
    repeat split; [| lia | done].
    apply Forall_app. split.
    + eapply Forall_impl; [exact Hm1 |]. simpl. intros c ->. done.
    + eapply Forall_impl; [exact Hm2 |]. simpl. intros c ->.
      by rewrite orb_true_r.
  - intros H. apply orelse_Some in H as [H | H].
    + apply IH1 in H as (m & s1 & -> & Hm & Hl & Hk).
      exists m, s1. repeat split; [| lia | done].
      eapply Forall_impl; [exact Hm |]. simpl. intros c ->. done.
    + apply IH2 in H as (m & s1 & -> & Hm & Hl & Hk).
      exists m, s1. repeat split; [| lia | done].
      eapply Forall_impl; [exact Hm |]. simpl. intros c ->.
      by rewrite orb_true_r.
Qed.

Lemma match_here_splits r s rest :
  match_here r s = Some rest ->
  exists m, s = m ++ rest /\ Forall (fun c => chars r c = true) m
            /\ (min_len r <= length m)%nat.
Proof.
  intros H. apply matcher_splits in H as (m & s1 & -> & Hm & Hl & Hk).
  injection Hk as ->. by exists m.
Qed.

(** The search stops where the pattern matches. *)
Lemma search_match r s : forall i index lastIndex,
  search r s i = Some (index, lastIndex) ->
  i <= index <= i + len s
  /\ exists rest,
       match_here r (drop (Z.to_nat (index - i)) s) = Some rest
       /\ lastIndex = i + len s - len rest.
Proof.
  induction s as [| c s IH]; intros i index lastIndex; cbn [search].
  - destruct (match_here r []) as [rest |] eqn:Hm; [| done].
    intros [= <- <-]. split; [unfold len; simpl; lia |].
    exists rest. rewrite Z.sub_diag. split; [done | lia].
  - destruct (match_here r (c :: s)) as [rest |] eqn:Hm.
    + intros [= <- <-]. split; [unfold len; simpl; lia |].
      exists rest. rewrite Z.sub_diag. split; [done | lia].
    + intros H. apply IH in H as (Hb & rest & Hm' & Hl).
      split; [unfold len in *; simpl; lia |].
      exists rest. split.
      * replace (Z.to_nat (index - i))
          with (S (Z.to_nat (index - (i + 1)))) by lia.
        exact Hm'.
      * unfold len in *. simpl. lia.
Qed.

(** A match that [exec] reports is a stretch of the text made of code
    units of the classes of the pattern. *)
Lemma exec_match r text i index lastIndex :
  exec r text i = Some (index, lastIndex) ->
  Z.max i 0 <= index /\ index + Z.of_nat (min_len r) <= lastIndex
  /\ lastIndex <= len text
  /\ Forall (fun c => chars r c = true)
       (slice text index lastIndex).
Proof.
  intros H. pose proof (exec_bounds _ _ _ _ _ H) as (Hi & Hm & Hl).
  repeat split; try done.
  unfold exec in H.
  destruct (Z.ltb_spec (len text) (Z.max i 0)); [done |].
  apply search_match in H as (Hb & rest & Hmatch & Hlast).
  rewrite drop_drop in Hmatch.
  replace (Z.to_nat (Z.max i 0) + Z.to_nat (index - Z.max i 0))%nat
    with (Z.to_nat index) in Hmatch by lia.
  apply match_here_splits in Hmatch as (m & Hsplit & Hall & _).
  assert (Hlen : len m = lastIndex - index).
  { apply (f_equal len) in Hsplit. rewrite len_app in Hsplit.
    unfold len in *. rewrite !length_drop in *. lia. }
  rewrite slice_take_drop by lia.
  rewrite Hsplit, take_app_length'; [done |].
  unfold len in Hlen. lia.
Qed.

(** The search for a code unit of a class passes only code units outside
    the class. *)
Lemma search_chr_prefix p s : forall i index lastIndex,
  search (Chr p) s i = Some (index, lastIndex) ->
  forallb (fun c => negb (p c)) (take (Z.to_nat (index - i)) s) = true.
Proof.
  induction s as [| c s IH]; intros i index lastIndex.
  - simpl. done.
  - cbn [search]. rewrite match_here_chr.
    destruct (p c) eqn:Hp.
    + intros [= <- _]. rewrite Z.sub_diag. done.
    + intros H. pose proof (search_chr_hit _ _ _ _ _ H) as [Hle _].
      apply IH in H.
      replace (Z.to_nat (index - i))
        with (S (Z.to_nat (index - (i + 1)))) by lia.
      simpl. by rewrite Hp.
Qed.


End MatchFacts.

(** ** More on [extractWord] *)

Section ExtractWordMore.

Implicit Types (text : jsstring) (wi : WordInfo).

Lemma clamp_idem text o :
  len text <> 0 -> clamp text (clamp text o) = clamp text o.
Proof.
  intros Hne. pose proof (clamp_bounds text o Hne) as Hb.
  unfold clamp at 1.
  destruct (Z.ltb_spec (clamp text o) 0); [lia |].
  destruct (Z.geb_spec (clamp text o) (len text)); [lia | done].
Qed.

Lemma lookup_slice (s : jsstring) b e i :
  0 <= b <= i -> i < e -> e <= len s ->
  slice s b e !! Z.to_nat (i - b) = s !! Z.to_nat i.
Proof.
  intros Hb Hi He. rewrite slice_take_drop by lia.
  etransitivity; [apply lookup_take_lt; lia |].
  etransitivity; [apply lookup_drop |].
  f_equal. lia.
Qed.

(** The loop leaves [left] as it was or sets it to the start of a match
    that holds the offset. *)
Lemma scan_left_hit fuel : forall text o lastIndex left0,
  let l := scan_left fuel text o lastIndex left0 in
  l = left0
  \/ exists li1 li2,
       exec WORD_DEFINITION text li1 = Some (l, li2) /\ l <= o < li2.
Proof.
  induction fuel as [| fuel IH]; intros text o lastIndex left0; simpl.
  - by left.
  - destruct (exec WORD_DEFINITION text lastIndex) as [[index li] |] eqn:He;
      [| by left].
    destruct (Z.leb_spec index o) as [Hle | Hgt]; [| by left].
    destruct (IH text o li (if o <? li then index else left0))
      as [Hl | Hr]; [| by right].
    rewrite Hl.
    destruct (Z.ltb_spec o li); [| by left].
    right. exists lastIndex, li. split; [done | lia].
Qed.


(** Every word code unit that is a separator is a digit. *)
Lemma is_word_bound c : is_word c = true -> (c < 128)%N.
Proof.
  unfold is_word, is_digit.
  rewrite !orb_true_iff, !andb_true_iff, !N.leb_le, N.eqb_eq. lia.
Qed.

Lemma word_separator_digit c :
  is_word c = true -> is_separator c = true -> is_digit c = true.
Proof.
  intros Hw Hs. pose proof (is_word_bound c Hw) as Hb.
  assert (Hall :
    forallb (fun n => implb (is_word n && is_separator n) (is_digit n))
      (map N.of_nat (seq 0 128)) = true) by (vm_compute; reflexivity).
  rewrite forallb_forall in Hall.
  specialize (Hall c). rewrite Hw, Hs in Hall. apply Hall.
  apply in_map_iff. exists (N.to_nat c). split; [lia |].
  apply in_seq. lia.
Qed.


End ExtractWordMore.

(** X1: an offset below 0 is read as 0 and an offset at or beyond the
    length as the index of the last code unit: [extractWord] gives the same
    result for an offset and for the offset clamped into the text. *)
Theorem extractWord_clamped (text : jsstring) (o : Z) :
  extractWord text o = extractWord text (clamp text o)
  /\ (o < 0 -> extractWord text o = extractWord text 0)
  /\ (len text <= o -> extractWord text o = extractWord text (len text - 1)).
Proof.
  assert (H : extractWord text o = extractWord text (clamp text o)).
  { unfold extractWord.
    destruct (Z.eqb_spec (len text) 0) as [| Hne]; [done |].
    by rewrite clamp_idem. }
  split; [exact H |]. split.
  - intros Ho. rewrite H. unfold clamp.
    destruct (Z.ltb_spec o 0); [done | lia].
  - intros Ho. rewrite H. unfold clamp.
    destruct (Z.ltb_spec o 0).
    + pose proof (len_nonneg text). lia.
    + destruct (Z.geb_spec o (len text)); [done | lia].
Qed.

Lemma extractWord_clamped_witness :
  extractWord (str "hello world") 11 = extractWord (str "hello world") 10.
Proof.
  apply (proj2 (proj2 (extractWord_clamped (str "hello world") 11))).
  vm_compute. discriminate.
Defined.

(** X2: the span returned encloses the offset (as clamped) and lies within
    the text: [0 <= left <= offset <= right <= text.length]. *)
Theorem extractWord_encloses (text : jsstring) (o : Z) (wi : WordInfo) :
  extractWord text o = Some wi ->
  0 <= left wi /\ left wi <= clamp text o /\ clamp text o <= right wi
  /\ right wi <= len text /\ len (word wi) = right wi - left wi.
Proof.
  intros H. pose proof (extractWord_bounds _ _ _ H) as [Hl Hr].
  repeat split; try lia.
  rewrite (extractWord_word _ _ _ H). apply slice_length; lia.
Qed.

Lemma extractWord_encloses_witness :
  0 <= 4 /\ 4 <= clamp (str "abc def") 5 /\ clamp (str "abc def") 5 <= 7
  /\ 7 <= len (str "abc def") /\ len (str "def") = 7 - 4.
Proof.
  apply (extractWord_encloses (str "abc def") 5
           {| left := 4; right := 7; word := str "def" |}).
  reflexivity.
Defined.

(** X3: the right boundary is the first separator at or after the offset:
    no code unit from the offset up to the right boundary is a separator,
    and the right boundary is the length of the text or the index of a
    separator. *)
Theorem extractWord_right_first (text : jsstring) (o : Z) (wi : WordInfo) :
  extractWord text o = Some wi ->
  forallb (fun c => negb (is_separator c))
    (slice text (clamp text o) (right wi)) = true
  /\ (right wi = len text
      \/ exists c, text !! Z.to_nat (right wi) = Some c
                   /\ is_separator c = true).
Proof.
  intros H. pose proof (extractWord_bounds _ _ _ H) as [Hl Hr].
  apply extractWord_inv in H as (Hne & _ & _ & H).
  pose proof (clamp_bounds text o Hne) as Hoff.
  rewrite slice_take_drop by lia.
  destruct H as [(index & li & He & Hright & _) | (He & Hright & _)].
  - rewrite Hright in *. unfold exec in He.
    rewrite Z.max_l in He by lia.
    destruct (Z.ltb_spec (len text) (clamp text o)); [done |].
    split.
    + by apply search_chr_prefix in He.
    + right. apply search_chr_hit in He as (_ & c & Hc & Hp).
      exists c. split; [| done].
      rewrite <- Hc. symmetry.
      etransitivity; [apply lookup_drop |]. f_equal. lia.
  - split; [| by left].
    rewrite Hright. unfold exec in He.
    rewrite Z.max_l in He by lia.
    destruct (Z.ltb_spec (len text) (clamp text o)); [lia |].
    apply search_chr_none in He.
    rewrite take_ge; [done |].
    rewrite length_drop. unfold len. lia.
Qed.

Lemma extractWord_right_first_witness :
  forallb (fun c => negb (is_separator c))
    (slice (str "abc def, ghi") (clamp (str "abc def, ghi") 5) 7) = true
  /\ (7 = len (str "abc def, ghi")
      \/ exists c, str "abc def, ghi" !! Z.to_nat 7 = Some c
                   /\ is_separator c = true).
Proof.
  apply (extractWord_right_first (str "abc def, ghi") 5
           {| left := 4; right := 7; word := str "def" |}).
  reflexivity.
Defined.

(** No token holds a separator other than the hyphen, the period and the
    digits. *)
Lemma extractWord_separator_null (text : jsstring) (o : Z) (c : char) :
  text !! Z.to_nat (clamp text o) = Some c ->
  is_separator c = true ->
  c <> ch "-" -> c <> ch "." -> is_digit c = false ->
  extractWord text o = None.
Proof.
  intros Hc Hsep Hminus Hdot Hdigit.
  destruct (extractWord text o) as [wi |] eqn:H; [exfalso | done].
  pose proof (extractWord_bounds _ _ _ H) as [Hl Hr].
  apply extractWord_inv in H as (Hne & Hleft & Hpos & _).
  pose proof (clamp_bounds text o Hne) as Hoff.
  pose proof (scan_left_hit (S (length text)) text (clamp text o)
                (lastIndexOf text (ch " ") (clamp text o - 1) + 1) (-1))
    as Hhit.
  cbv zeta in Hhit. rewrite <- Hleft in Hhit.
  destruct Hhit as [Hhit | (li1 & li2 & He & Hin)]; [lia |].
  apply exec_match in He as (_ & _ & Hli & Hall).
  rewrite Forall_lookup in Hall.
  specialize (Hall (Z.to_nat (clamp text o - left wi)) c).
  rewrite lookup_slice in Hall by lia.
  specialize (Hall Hc). unfold WORD_DEFINITION in Hall.
  cbn beta iota delta [chars] in Hall.
  unfold not_in_class in Hall. fold is_separator in Hall.
  rewrite Hsep, Hdigit in Hall. cbn [negb orb] in Hall.
  rewrite !orb_false_r in Hall.
  apply orb_true_iff in Hall as [Hall | Hall].
  - apply N.eqb_eq in Hall. congruence.
  - apply orb_true_iff in Hall as [Hall | Hall].
    + apply N.eqb_eq in Hall. congruence.
    + pose proof (word_separator_digit c Hall Hsep). congruence.
Qed.

(** X4: there is no word on a separator that cannot be part of a number
    token. When the code unit at the offset is a separator other than the
    hyphen, the period and the digits, [extractWord] returns [null]: so it
    does for a caret on white space, or just behind a word that a comma
    follows. *)
Theorem extractWord_null_on_separator (text : jsstring) (o : Z) (c : char) :
  text !! Z.to_nat (clamp text o) = Some c ->
  is_separator c = true ->
  c <> ch "-" -> c <> ch "." -> is_digit c = false ->
  extractWord text o = None.
Proof.
  intros Hc Hsep Hminus Hdot Hdigit.
  by apply (extractWord_separator_null text o c).
Qed.

Lemma extractWord_null_on_separator_witness :
  extractWord (str "abc, def") 3 = None.
Proof.
  apply (extractWord_null_on_separator (str "abc, def") 3 (ch ",")).
  - reflexivity.
  - reflexivity.
  - vm_compute. discriminate.
  - vm_compute. discriminate.
  - reflexivity.
Defined.

(** ** Texts whose words can be told without running the patterns *)

Section WordShapes.

Implicit Types (s w pre post text : jsstring) (r : regex).

(** A pattern fails where its continuation fails on every remaining
    input: [Q] holds of the input and of its tails. *)
Lemma star_fail (Q : jsstring -> Prop) p s k :
  (forall c s', Q (c :: s') -> Q s') ->
  (forall s1, Q s1 -> k s1 = None) ->
  Q s -> star p s k = None.
Proof.
  intros Htail Hk. induction s as [| c s IH]; intros HQ; simpl.
  - by apply Hk.
  - destruct (p c); [| by apply Hk].
    rewrite IH by (by eapply Htail). simpl. by apply Hk.
Qed.

Lemma matcher_fail (Q : jsstring -> Prop) r :
  (forall c s', Q (c :: s') -> Q s') ->
  forall s k, (forall s1, Q s1 -> k s1 = None) -> Q s ->
  matcher r s k = None.
Proof.
  intros Htail.
  induction r as [p | p | p | p | r1 IH1 r2 IH2 | r1 IH1 r2 IH2];
    intros s k Hk HQ; simpl.
  - destruct s as [| c s]; [done |].
    destruct (p c); [| done]. apply Hk. by eapply Htail.
  - destruct s as [| c s]; [by apply Hk |].
    destruct (p c); [| by apply Hk].
    rewrite (Hk s) by (by eapply Htail). simpl. by apply Hk.
  - by apply (star_fail Q).
  - destruct s as [| c s]; [done |].
    destruct (p c); [| done].
    apply (star_fail Q); [done | done |]. by eapply Htail.
  - apply IH1; [| done]. intros s1 HQ1. by apply IH2.
  - rewrite IH1, IH2 by done. done.
Qed.

Lemma matcher_Seq r1 r2 s k :
  matcher (Seq r1 r2) s k = matcher r1 s (fun s1 => matcher r2 s1 k).
Proof. reflexivity. Qed.

Lemma matcher_Alt r1 r2 s k :
  matcher (Alt r1 r2) s k = orelse (matcher r1 s k) (matcher r2 s k).
Proof. reflexivity. Qed.

(** No token starts in a text of separators that are not digits. *)
Lemma WORD_DEFINITION_fail s :
  Forall (fun c => is_separator c = true /\ is_digit c = false) s ->
  match_here WORD_DEFINITION s = None.
Proof.
  intros HQ. unfold match_here, WORD_DEFINITION.
  set (Q := Forall (fun c => is_separator c = true /\ is_digit c = false)).
  assert (Htail : forall c s', Q (c :: s') -> Q s').
  { intros c s' H. by inversion H. }
  rewrite matcher_Alt, matcher_Seq.
  rewrite (matcher_fail Q _ Htail s); [| | done].
  - simpl. destruct s as [| c s]; [done |].
    inversion HQ as [| ? ? [Hsep _] _]; subst.
    unfold not_in_class. fold is_separator. by rewrite Hsep.
  - intros s1 HQ1. rewrite matcher_Seq.
    apply (matcher_fail Q _ Htail); [| done].
    intros s2 HQ2. rewrite matcher_Seq.
    apply (matcher_fail Q _ Htail); [| done].
    intros s3 HQ3. simpl. destruct s3 as [| c s3]; [done |].
    inversion HQ3 as [| ? ? [_ Hd] _]; subst. by rewrite Hd.
Qed.

Lemma search_WORD_DEFINITION_fail s i :
  Forall (fun c => is_separator c = true /\ is_digit c = false) s ->
  search WORD_DEFINITION s i = None.
Proof.
  revert i. induction s as [| c s IH]; intros i HQ; cbn [search];
    rewrite WORD_DEFINITION_fail by done; [done |].
  apply IH. by inversion HQ.
Qed.








End WordShapes.

(** X5: a text made only of separators that are not digits (white space
    and punctuation) has no word: [extractWord] returns [null] at every
    offset. *)
Theorem extractWord_null_on_punctuation (text : jsstring) (o : Z) :
  forallb (fun c => is_separator c && negb (is_digit c)) text = true ->
  extractWord text o = None.
Proof.
  intros Hall.
  assert (HQ : Forall (fun c => is_separator c = true /\ is_digit c = false)
                 text).
  { apply Forall_forall. intros c Hc%list_elem_of_In.
    rewrite forallb_forall in Hall. apply Hall in Hc.
    apply andb_true_iff in Hc as [Hs Hd].
    by apply negb_true_iff in Hd. }
  unfold extractWord.
  destruct (len text =? 0); [done |]. cbv zeta.
  cbn [scan_left]. unfold exec at 1.
  destruct (len text <? _); [done |].
  rewrite search_WORD_DEFINITION_fail by (by apply Forall_drop).
  done.
Qed.

Lemma extractWord_null_on_punctuation_witness :
  extractWord (str " -- (...) ") 4 = None.
Proof.
  apply (extractWord_null_on_punctuation (str " -- (...) ") 4).
  reflexivity.
Defined.





(** ** More on [validateLineCursor] *)

(** X8: what [validateLineCursor] accepts. For a selection with a start
    and an end position whose start refers to a block, the call never
    throws, and it returns [true] exactly when the two keys are equal, the
    block is not a [codeContent] block with a language, and the selection
    does not carry exactly one affiliation of type [pre]. Offsets play no
    part. *)
Theorem validateLineCursor_accepts (h : gmap loc Block)
    (sel : Raw.Selection) (s e : Raw.Position) (l : loc) (b : Block) :
  Raw.start sel = Some s ->
  Raw.end_ sel = Some e ->
  Raw.block s = Some l ->
  h !! l = Some b ->
  (exists ok, validateLineCursor h (Some sel) = Return ok)
  /\ (validateLineCursor h (Some sel) = Return true <->
      Raw.key s = Raw.key e
      /\ ~ (functionType b = Some "codeContent"%string /\ is_Some (lang b))
      /\ ~ (exists a, Raw.affiliation sel = Some [a]
                      /\ Raw.type a = "pre"%string)).
Proof.
  intros Hs He Hb Hl. unfold validateLineCursor.
  rewrite Hs, He, Hb. simpl. rewrite Hl.
  destruct (String.eqb_spec (Raw.key s) (Raw.key e)) as [Hk | Hk]; simpl.
  2: { split; [by eexists |]. split; [done | tauto]. }
  destruct (bool_decide (functionType b = Some "codeContent"%string))
    eqn:Hf; simpl.
  - apply bool_decide_eq_true in Hf.
    destruct (bool_decide (is_Some (lang b))) eqn:Hg.
    + apply bool_decide_eq_true in Hg.
      split; [by eexists |]. split; [done | tauto].
    + apply bool_decide_eq_false in Hg.
      destruct (Raw.affiliation sel) as [[| a [| a' la]] |] eqn:Ha;
        try (split; [by eexists |]; split; [intros _ | done];
             repeat split; try tauto; by intros (? & [=] & _)).
      destruct (String.eqb_spec (Raw.type a) "pre") as [Ht | Ht].
      * split; [by eexists |]. split; [done |].
        intros (_ & _ & Hn). exfalso. apply Hn. by exists a.
      * split; [by eexists |]. split; [intros _ | done].
        repeat split; try tauto. intros (a' & [= <-] & Hp). done.
  - apply bool_decide_eq_false in Hf.
    destruct (Raw.affiliation sel) as [[| a [| a' la]] |] eqn:Ha;
      try (split; [by eexists |]; split; [intros _ | done];
           repeat split; try tauto; by intros (? & [=] & _)).
    destruct (String.eqb_spec (Raw.type a) "pre") as [Ht | Ht].
    + split; [by eexists |]. split; [done |].
      intros (_ & _ & Hn). exfalso. apply Hn. by exists a.
    + split; [by eexists |]. split; [intros _ | done].
      repeat split; try tauto. intros (a' & [= <-] & Hp). done.
Qed.

(** Two affiliations of type [pre] do not make a selection ineligible. *)
Lemma validateLineCursor_accepts_witness :
  validateLineCursor (heap (Sample.doc "ag-1"))
    (Some {| Raw.start := Some (raw_position
                                  (Sample.at_ "ag-1" 5 (Some 1%positive)));
             Raw.end_ := Some (raw_position (Sample.at_ "ag-1" 5 None));
             Raw.affiliation :=
               Some [ {| Raw.type := "pre" |}; {| Raw.type := "pre" |} ] |})
  = Return true.
Proof.
  apply (proj2 (validateLineCursor_accepts (heap (Sample.doc "ag-1"))
                  {| Raw.start :=
                       Some (raw_position
                               (Sample.at_ "ag-1" 5 (Some 1%positive)));
                     Raw.end_ :=
                       Some (raw_position (Sample.at_ "ag-1" 5 None));
                     Raw.affiliation :=
                       Some [ {| Raw.type := "pre" |};
                              {| Raw.type := "pre" |} ] |}
                  (raw_position (Sample.at_ "ag-1" 5 (Some 1%positive)))
                  (raw_position (Sample.at_ "ag-1" 5 None))
                  1%positive Sample.paragraph
                  eq_refl eq_refl eq_refl eq_refl)).
  split; [reflexivity |]. split.
  - intros [Hf _]. vm_compute in Hf. discriminate.
  - intros (a & Ha & _). discriminate.
Defined.

(** ** More on [replaceWordInline] *)

Section ReplaceMore.

Implicit Types (line wordCursor : Cursor) (st : State) (b : Block).
Implicit Types (replacement : jsstring) (setCursor : bool) (l : loc).

(** The state and the line after a call that meets the preconditions,
    with the text written as the parts of the old one. *)
Lemma replaceWordInline_result line wordCursor replacement setCursor st l b :
  preconditions line wordCursor st l b ->
  0 <= offset (start wordCursor) ->
  let left := offset (start wordCursor) in
  let right := offset (end_ wordCursor) in
  let b' :=
    set_text b
      (take (Z.to_nat left) (text b) ++ replacement
       ++ drop (Z.to_nat right) (text b)) in
  let caret := with_offset (start wordCursor) (left + len replacement) in
  exists st' line',
    replaceWordInline line wordCursor replacement setCursor st = Ok st' line'
    /\ heap st' = <[l := b']> (heap st)
    /\ blocks st' = blocks st
    /\ cursor st'
       = (if setCursor then {| start := caret; end_ := caret |}
          else cursor st)
    /\ line' = (if setCursor then {| start := caret; end_ := caret |}
                else line)
    /\ events st'
       = events st ++ [PartialRender; DispatchSelectionChange;
                       DispatchChange].
Proof.
  intros Hpre Hleft left right b' caret.
  pose proof Hpre as (_ & _ & Ho & _ & _ & _ & _).
  pose proof (replaceWordInline_ok _ _ replacement setCursor _ _ _ Hpre)
    as Hok.
  cbv zeta in Hok. fold left right in Hok.
  rewrite substr_0_take, substr_from_drop in Hok by (subst left right; lia).
  eexists _, _. split; [exact Hok |].
  destruct setCursor; simpl; rewrite <- !app_assoc; repeat split; done.
Qed.

End ReplaceMore.

(** X9: a word cursor made by [offsetToWordCursor] from the line itself is
    accepted. For a line on one key whose start refers to a block, and
    offsets [0 <= left <= right <= text.length], the call
    [replaceWordInline(line, offsetToWordCursor(line, left, right), r)]
    returns and replaces [text[left..right]] by [r]. [deepClone] keeps the
    key of a position. *)
Theorem replaceWordInline_of_offsets (deepClone : Position -> Position)
    (line : Cursor) (left right : Z) (replacement : jsstring)
    (setCursor : bool) (st : State) (l : loc) (b : Block) :
  (forall p, key (deepClone p) = key p) ->
  key (start line) = key (end_ line) ->
  block (start line) = Some l ->
  heap st !! l = Some b ->
  0 <= left <= right ->
  right <= len (text b) ->
  exists st' line',
    replaceWordInline line (offsetToWordCursor deepClone line left right)
      replacement setCursor st = Ok st' line'
    /\ text <$> heap st' !! l
       = Some (take (Z.to_nat left) (text b) ++ replacement
               ++ drop (Z.to_nat right) (text b)).
Proof.
  intros Hclone Hk Hb Hh Ho Hlen.
  destruct (replaceWordInline_result line
              (offsetToWordCursor deepClone line left right)
              replacement setCursor st l b)
    as (st' & line' & Hcall & Hheap & _).
  - unfold preconditions. simpl. rewrite !Hclone.
    repeat split; try done; lia.
  - simpl. lia.
  - exists st', line'. split; [exact Hcall |].
    rewrite Hheap, lookup_insert_eq. done.
Qed.

Lemma replaceWordInline_of_offsets_witness :
  exists st' line',
    replaceWordInline Sample.line1
      (offsetToWordCursor id Sample.line1 0 3) (str "ABC") false
      (Sample.doc "ag-1") = Ok st' line'
    /\ text <$> heap st' !! 1%positive = Some (str "ABC def").
Proof.
  apply (replaceWordInline_of_offsets id Sample.line1 0 3 (str "ABC")
           false (Sample.doc "ag-1") 1%positive Sample.paragraph).
  - reflexivity.
  - reflexivity.
  - reflexivity.
  - reflexivity.
  - lia.
  - vm_compute. discriminate.
Defined.

(** X10: a successful call touches one block and one field of it. Every
    other block is as before, the block of each key is as before, and the
    block written keeps its function type and its language. *)
Theorem replaceWordInline_frame (line wordCursor : Cursor)
    (replacement : jsstring) (setCursor : bool) (st : State)
    (l : loc) (b : Block) :
  preconditions line wordCursor st l b ->
  exists st' line' b',
    replaceWordInline line wordCursor replacement setCursor st = Ok st' line'
    /\ heap st' !! l = Some b'
    /\ functionType b' = functionType b /\ lang b' = lang b
    /\ (forall l', l' <> l -> heap st' !! l' = heap st !! l')
    /\ blocks st' = blocks st.
Proof.
  intros Hpre.
  pose proof (replaceWordInline_ok _ _ replacement setCursor _ _ _ Hpre)
    as Hok.
  cbv zeta in Hok.
  eexists _, _, _. split; [exact Hok |].
  destruct setCursor; simpl; rewrite lookup_insert_eq;
    (repeat split; try done);
    intros l' Hne; by rewrite lookup_insert_ne.
Qed.

Lemma replaceWordInline_frame_witness :
  exists st' line' b',
    replaceWordInline Sample.line1 Sample.word_def (str "xyz") true
      (Sample.doc "ag-2") = Ok st' line'
    /\ heap st' !! 1%positive = Some b'
    /\ functionType b' = functionType Sample.paragraph
    /\ lang b' = lang Sample.paragraph
    /\ (forall l', l' <> 1%positive ->
          heap st' !! l' = heap (Sample.doc "ag-2") !! l')
    /\ blocks st' = blocks (Sample.doc "ag-2").
Proof.
  apply (replaceWordInline_frame Sample.line1 Sample.word_def (str "xyz")
           true (Sample.doc "ag-2") 1%positive Sample.paragraph).
  unfold preconditions. simpl. repeat split; try reflexivity; lia.
Defined.

(** X11: every successful call sends the three notifications, in the order
    partial render, selection change, content change, whether or not the
    cursor is set; without [setCursor] the active cursor and the line are
    left as they were. *)
Theorem replaceWordInline_notifies (line wordCursor : Cursor)
    (replacement : jsstring) (setCursor : bool) (st : State)
    (l : loc) (b : Block) :
  preconditions line wordCursor st l b ->
  exists st' line',
    replaceWordInline line wordCursor replacement setCursor st = Ok st' line'
    /\ events st'
       = events st ++ [PartialRender; DispatchSelectionChange;
                       DispatchChange]
    /\ (setCursor = false -> cursor st' = cursor st /\ line' = line).
Proof.
  intros Hpre.
  pose proof (replaceWordInline_ok _ _ replacement setCursor _ _ _ Hpre)
    as Hok.
  cbv zeta in Hok.
  eexists _, _. split; [exact Hok |].
  destruct setCursor; simpl; rewrite <- !app_assoc; repeat split; done.
Qed.

Lemma replaceWordInline_notifies_witness :
  exists st' line',
    replaceWordInline Sample.line1 Sample.word_def (str "xyz") false
      (Sample.doc "ag-2") = Ok st' line'
    /\ events st'
       = events (Sample.doc "ag-2")
         ++ [PartialRender; DispatchSelectionChange; DispatchChange]
    /\ (false = false ->
        cursor st' = cursor (Sample.doc "ag-2") /\ line' = Sample.line1).
Proof.
  apply (replaceWordInline_notifies Sample.line1 Sample.word_def
           (str "xyz") false (Sample.doc "ag-2") 1%positive
           Sample.paragraph).
  unfold preconditions. simpl. repeat split; try reflexivity; lia.
Defined.

(** X12: a replacement can be undone. After a call without [setCursor]
    that replaces [text[left..right]] by [r], a second call on the same
    line with the word range [(left, left + r.length)] and the old word as
    replacement gives every block the text it had. *)
Theorem replaceWordInline_undo (line wordCursor : Cursor)
    (replacement : jsstring) (st : State) (l : loc) (b : Block) :
  preconditions line wordCursor st l b ->
  0 <= offset (start wordCursor) ->
  let left := offset (start wordCursor) in
  let right := offset (end_ wordCursor) in
  let back :=
    {| start := start wordCursor;
       end_ := with_offset (end_ wordCursor) (left + len replacement) |} in
  exists st1 line1 st2 line2,
    replaceWordInline line wordCursor replacement false st = Ok st1 line1
    /\ replaceWordInline line1 back (slice (text b) left right) false st1
       = Ok st2 line2
    /\ heap st2 = heap st
    /\ cursor st2 = cursor st.
Proof.
  intros Hpre Hleft left right back.
  pose proof Hpre as (Hw & Hl & Ho & Hm & Hb & Hh & Hlen).
  fold left right in Ho, Hlen, Hleft.
  pose proof (len_nonneg replacement) as Hr.
  destruct (replaceWordInline_result line wordCursor replacement false st
              l b Hpre Hleft)
    as (st1 & line1 & Hcall1 & Hheap1 & _ & Hcur1 & Hline1 & _).
  fold left right in Hheap1.
  set (t' := take (Z.to_nat left) (text b) ++ replacement
             ++ drop (Z.to_nat right) (text b)) in *.
  assert (Hlen' : len t' = left + len replacement + (len (text b) - right)).
  { subst t'. rewrite !len_app. unfold len.
    rewrite length_take, length_drop. unfold len in *. lia. }
  assert (Hpre2 : preconditions line1 back st1 l (set_text b t')).
  { subst line1. unfold preconditions, back. simpl.
    rewrite Hheap1, lookup_insert_eq.
    repeat split; try done; lia. }
  destruct (replaceWordInline_result line1 back
              (slice (text b) left right) false st1 l (set_text b t')
              Hpre2)
    as (st2 & line2 & Hcall2 & Hheap2 & _ & Hcur2 & _).
  { simpl. exact Hleft. }
  exists st1, line1, st2, line2.
  split; [exact Hcall1 |]. split; [exact Hcall2 |]. split.
  - rewrite Hheap2, Hheap1, insert_insert_eq.
    unfold back. simpl. fold left.
    assert (Htake : take (Z.to_nat left) t' = take (Z.to_nat left) (text b)).
    { subst t'. rewrite take_app_le by (rewrite length_take; unfold len in *; lia).
      apply take_idemp. }
    assert (Hdrop : drop (Z.to_nat (left + len replacement)) t'
                    = drop (Z.to_nat right) (text b)).
    { subst t'. rewrite app_assoc.
      rewrite drop_app_length'; [done |].
      rewrite length_app, length_take. unfold len in *. lia. }
    rewrite Htake, Hdrop.
    rewrite <- (substr_0_take (text b)) by lia.
    rewrite <- (substr_from_drop (text b)) by lia.
    rewrite splice_same by lia.
    replace (set_text (set_text b t') (text b)) with b by (by destruct b).
    by apply insert_id.
  - by rewrite Hcur2, Hcur1.
Qed.

Lemma replaceWordInline_undo_witness :
  exists st1 line1 st2 line2,
    replaceWordInline Sample.line1 Sample.word_def (str "hello") false
      (Sample.doc "ag-2") = Ok st1 line1
    /\ replaceWordInline line1
         {| start := Sample.at_ "ag-1" 4 None;
            end_ := Sample.at_ "ag-1" 9 None |}
         (str "def") false st1 = Ok st2 line2
    /\ heap st2 = heap (Sample.doc "ag-2")
    /\ cursor st2 = cursor (Sample.doc "ag-2").
Proof.
  apply (replaceWordInline_undo Sample.line1 Sample.word_def (str "hello")
           (Sample.doc "ag-2") 1%positive Sample.paragraph).
  - unfold preconditions. simpl. repeat split; try reflexivity; lia.
  - simpl. lia.
Defined.

(** X13: a line whose start position has no block makes the call throw a
    [TypeError], not one of the five errors of the method: the four checks
    on keys and offsets pass and the fifth reads the text of a block that
    is not there. Nothing has changed when it throws. *)
Theorem replaceWordInline_no_block (line wordCursor : Cursor)
    (replacement : jsstring) (setCursor : bool) (st : State) :
  key (start wordCursor) = key (end_ wordCursor) ->
  key (start line) = key (end_ line) ->
  offset (start wordCursor) <= offset (end_ wordCursor) ->
  key (start line) = key (end_ wordCursor) ->
  block (start line) = None ->
  replaceWordInline line wordCursor replacement setCursor st
  = Throw st TypeError.
Proof.
  intros Hw Hl Ho Hm Hb. unfold replaceWordInline.
  rewrite Hw, Hl in *. rewrite <- Hm. rewrite String.eqb_refl. simpl.
  destruct (Z.gtb_spec (offset (start wordCursor)) (offset (end_ wordCursor)));
    [lia |].
  by rewrite Hb.
Qed.

Lemma replaceWordInline_no_block_witness :
  replaceWordInline (Sample.caret "ag-1" 5 None) Sample.word_def
    (str "xyz") true (Sample.doc "ag-1")
  = Throw (Sample.doc "ag-1") TypeError.
Proof.
  apply (replaceWordInline_no_block (Sample.caret "ag-1" 5 None)
           Sample.word_def (str "xyz") true (Sample.doc "ag-1")).
  - reflexivity.
  - reflexivity.
  - simpl. lia.
  - reflexivity.
  - reflexivity.
Defined.



(** ** More on [_replaceCurrentWordInlineUnsafe] *)

Section UnsafeMore.

Variable deepClone : Position -> Position.

Implicit Types (range : Cursor) (st : State) (b : Block) (l : loc).
Implicit Types (word replacement : jsstring).

(** The first check of [replaceWordInline]. *)
Lemma replaceWordInline_word_keys (line wordCursor : Cursor) replacement
    (setCursor : bool) st :
  key (start wordCursor) <> key (end_ wordCursor) ->
  replaceWordInline line wordCursor replacement setCursor st
  = Throw st InvalidWordCursor.
Proof.
  intros Hw. unfold replaceWordInline.
  destruct (String.eqb_spec (key (start wordCursor)) (key (end_ wordCursor)));
    done.
Qed.

(** The ways a call can end, in a store where the block of every key is a
    block of the heap. *)
Lemma unsafe_cases range word replacement st :
  (forall k l, getBlock st k = Some l -> is_Some (heap st !! l)) ->
  let call :=
    _replaceCurrentWordInlineUnsafe deepClone range word replacement st in
  call = Ok (emit st ConsoleWarn) false
  \/ call = Ok st false
  \/ call = Throw st InvalidWordCursor
  \/ call = Throw st CursorMismatch
  \/ exists l b wi st',
       getBlock st (key (start range)) = Some l
       /\ heap st !! l = Some b
       /\ extractWord (text b) (offset (start range)) = Some wi
       /\ SpellChecker.word wi = word
       /\ call = Ok st' true
       /\ heap st'
          = <[l := set_text b
                     (take (Z.to_nat (left wi)) (text b) ++ replacement
                      ++ drop (Z.to_nat (right wi)) (text b))]> (heap st)
       /\ cursor st'
          = (let caret :=
               with_offset (deepClone (start (cursor st)))
                 (left wi + len replacement) in
             {| start := caret; end_ := caret |})
       /\ events st'
          = events st ++ [PartialRender; DispatchSelectionChange;
                          DispatchChange].
Proof.
  intros Hwf call. subst call.
  unfold _replaceCurrentWordInlineUnsafe.
  destruct (getBlock st (key (start range))) as [l |] eqn:Hg.
  2: { left. unfold validateLineCursor, attach_block. simpl. rewrite Hg.
       simpl. by rewrite orb_true_r. }
  destruct (Hwf _ _ Hg) as [b Hh].
  destruct (validate_attached st range l b Hg Hh) as [ok Hv].
  rewrite Hv. destruct ok; [| by left].
  pose proof (validate_true_keys _ _ Hv) as Hk.
  simpl. rewrite Hg. simpl. rewrite Hh.
  destruct (extractWord (text b) (offset (start range))) as [wi |] eqn:He;
    [| right; by left].
  destruct (decide (SpellChecker.word wi = word)) as [Heq | Hne].
  2: { left. by rewrite bool_decide_eq_false_2. }
  rewrite bool_decide_eq_true_2 by done. simpl.
  pose proof (extractWord_bounds _ _ _ He) as [Hl Hr].
  set (wordRange := offsetToWordCursor deepClone (cursor st) (left wi)
                      (right wi)).
  destruct (decide (key (start wordRange) = key (end_ wordRange)))
    as [Hw | Hw].
  2: { right; right; left. by rewrite replaceWordInline_word_keys. }
  destruct (decide (key (start (attach_block st range))
                    = key (end_ wordRange))) as [Hm | Hm].
  2: { right; right; right; left.
       rewrite replaceWordInline_mismatch; [done | done | done | | done].
       simpl. lia. }
  right; right; right; right.
  destruct (replaceWordInline_result (attach_block st range) wordRange
              replacement true st l b)
    as (st' & line' & Hcall & Hheap & _ & Hcur & _ & Hev).
  - unfold preconditions. simpl. rewrite Hg.
    repeat split; try done; lia.
  - simpl. lia.
  - rewrite Hcall. exists l, b, wi, st'. repeat split; done.
Qed.

End UnsafeMore.

(** X15: a selection that is not eligible is skipped with a warning. When
    the selection spans two lines, or its line has no block, or the block
    is a [codeContent] block with a language, the call returns [false];
    the only trace is the warning. *)
Theorem unsafe_ineligible (deepClone : Position -> Position)
    (range : Cursor) (word replacement : jsstring) (st : State) :
  key (start range) <> key (end_ range)
  \/ getBlock st (key (start range)) = None
  \/ (exists l b, getBlock st (key (start range)) = Some l
                  /\ heap st !! l = Some b
                  /\ functionType b = Some "codeContent"%string
                  /\ is_Some (lang b)) ->
  _replaceCurrentWordInlineUnsafe deepClone range word replacement st
  = Ok (emit st ConsoleWarn) false.
Proof.
  intros H. unfold _replaceCurrentWordInlineUnsafe.
  assert (Hv : validateLineCursor (heap st)
                 (Some (raw_cursor (attach_block st range)))
               = Return false).
  { unfold validateLineCursor, attach_block. simpl.
    destruct H as [Hk | [Hg | (l & b & Hg & Hh & Hf & Hlang)]].
    - destruct (String.eqb_spec (key (start range)) (key (end_ range)));
        done.
    - rewrite Hg. simpl. by rewrite orb_true_r.
    - rewrite Hg. simpl. rewrite Hh.
      destruct (negb _ || false); [done |].
      by rewrite !bool_decide_eq_true_2. }
  by rewrite Hv.
Qed.

Lemma unsafe_ineligible_witness :
  _replaceCurrentWordInlineUnsafe id (Sample.caret "ag-2" 5 None)
    (str "teh") (str "the") (Sample.doc "ag-2")
  = Ok (emit (Sample.doc "ag-2") ConsoleWarn) false.
Proof.
  apply (unsafe_ineligible id (Sample.caret "ag-2" 5 None)
           (str "teh") (str "the") (Sample.doc "ag-2")).
  right. right. exists 2%positive, Sample.code_line.
  repeat split; try reflexivity. by exists "js"%string.
Defined.

(** X16: when the selection is eligible but there is no word at its
    offset, the call returns [false] and leaves no trace at all, not even
    a warning. So it is when the code unit at the offset (the last one for
    an offset at the end) is white space or punctuation other than the
    hyphen and the period. *)
Theorem unsafe_no_word (deepClone : Position -> Position)
    (range : Cursor) (word replacement : jsstring) (st : State)
    (l : loc) (b : Block) :
  validateLineCursor (heap st) (Some (raw_cursor (attach_block st range)))
  = Return true ->
  getBlock st (key (start range)) = Some l ->
  heap st !! l = Some b ->
  extractWord (text b) (offset (start range)) = None
  \/ (exists c,
        text b !! Z.to_nat (clamp (text b) (offset (start range))) = Some c
        /\ is_separator c = true /\ c <> ch "-" /\ c <> ch "."
        /\ is_digit c = false) ->
  _replaceCurrentWordInlineUnsafe deepClone range word replacement st
  = Ok st false.
Proof.
  intros Hv Hg Hh He.
  assert (He' : extractWord (text b) (offset (start range)) = None).
  { destruct He as [He | (c & Hc & Hs & Hm & Hd & Hdig)]; [done |].
    by apply (extractWord_separator_null _ _ c). }
  unfold _replaceCurrentWordInlineUnsafe.
  rewrite Hv. simpl. rewrite Hg. simpl. by rewrite Hh, He'.
Qed.

Lemma unsafe_no_word_witness :
  _replaceCurrentWordInlineUnsafe id (Sample.caret "ag-1" 3 None)
    (str "abc") (str "xyz") (Sample.doc "ag-1")
  = Ok (Sample.doc "ag-1") false.
Proof.
  apply (unsafe_no_word id (Sample.caret "ag-1" 3 None)
           (str "abc") (str "xyz") (Sample.doc "ag-1") 1%positive
           Sample.paragraph).
  - reflexivity.
  - reflexivity.
  - reflexivity.
  - right. exists (ch " "). split; [reflexivity |].
    split; [reflexivity |].
    split; [vm_compute; discriminate |].
    split; [vm_compute; discriminate | reflexivity].
Defined.

(** X17: the ways a call can end. In a store where the block of every key
    is a block of the heap, the call returns [false] with every block and
    the active cursor as before, or returns [true], or throws the word
    cursor error or the cursor mismatch error of [replaceWordInline] with
    the state as before. It never throws the line cursor error, the offset
    order error, the bounds error or a [TypeError]. *)
Theorem unsafe_outcomes (deepClone : Position -> Position)
    (range : Cursor) (word replacement : jsstring) (st : State) :
  (forall k l, getBlock st k = Some l -> is_Some (heap st !! l)) ->
  let call :=
    _replaceCurrentWordInlineUnsafe deepClone range word replacement st in
  (exists st', call = Ok st' false /\ heap st' = heap st
               /\ cursor st' = cursor st)
  \/ (exists st', call = Ok st' true)
  \/ call = Throw st InvalidWordCursor
  \/ call = Throw st CursorMismatch.
Proof.
  intros Hwf call. subst call.
  destruct (unsafe_cases deepClone range word replacement st Hwf)
    as [H | [H | [H | [H | (l & b & wi & st' & _ & _ & _ & _ & H & _)]]]];
    rewrite H.
  - left. by eexists.
  - left. by eexists.
  - by right; right; left.
  - by right; right; right.
  - right; left. by eexists.
Qed.

Lemma unsafe_outcomes_witness :
  (exists st',
     _replaceCurrentWordInlineUnsafe id (Sample.caret "ag-1" 5 None)
       (str "def") (str "fed") (Sample.doc "ag-1") = Ok st' false
     /\ heap st' = heap (Sample.doc "ag-1")
     /\ cursor st' = cursor (Sample.doc "ag-1"))
  \/ (exists st',
        _replaceCurrentWordInlineUnsafe id (Sample.caret "ag-1" 5 None)
          (str "def") (str "fed") (Sample.doc "ag-1") = Ok st' true)
  \/ _replaceCurrentWordInlineUnsafe id (Sample.caret "ag-1" 5 None)
       (str "def") (str "fed") (Sample.doc "ag-1")
     = Throw (Sample.doc "ag-1") InvalidWordCursor
  \/ _replaceCurrentWordInlineUnsafe id (Sample.caret "ag-1" 5 None)
       (str "def") (str "fed") (Sample.doc "ag-1")
     = Throw (Sample.doc "ag-1") CursorMismatch.
Proof.
  apply (unsafe_outcomes id (Sample.caret "ag-1" 5 None)
           (str "def") (str "fed") (Sample.doc "ag-1")).
  intros k l. unfold getBlock. simpl.
  intros H.
  apply lookup_insert_Some in H as [[_ <-] | [_ H]]; [by eexists |].
  apply lookup_singleton_Some in H as [_ <-]. by eexists.
Defined.

(** X18: the call returns [true] only after a replacement. When it returns
    [true], the selection has a block, the word extracted at its offset is
    the word reported, the text of that block has the word replaced, the
    active cursor is collapsed at [left + replacement.length], and the
    three notifications were sent. *)
Theorem unsafe_true_replaced (deepClone : Position -> Position)
    (range : Cursor) (word replacement : jsstring) (st st' : State) :
  (forall k l, getBlock st k = Some l -> is_Some (heap st !! l)) ->
  _replaceCurrentWordInlineUnsafe deepClone range word replacement st
  = Ok st' true ->
  exists l b wi,
    getBlock st (key (start range)) = Some l
    /\ heap st !! l = Some b
    /\ extractWord (text b) (offset (start range)) = Some wi
    /\ SpellChecker.word wi = word
    /\ text <$> heap st' !! l
       = Some (take (Z.to_nat (left wi)) (text b) ++ replacement
               ++ drop (Z.to_nat (right wi)) (text b))
    /\ offset (start (cursor st')) = left wi + len replacement
    /\ start (cursor st') = end_ (cursor st')
    /\ events st'
       = events st ++ [PartialRender; DispatchSelectionChange;
                       DispatchChange].
Proof.
  intros Hwf Hcall.
  destruct (unsafe_cases deepClone range word replacement st Hwf)
    as [H | [H | [H | [H | (l & b & wi & st1 & Hg & Hh & He & Hw & H
                            & Hheap & Hcur & Hev)]]]];
    rewrite H in Hcall; try discriminate.
  injection Hcall as ->.
  exists l, b, wi. repeat split; try done.
  - by rewrite Hheap, lookup_insert_eq.
  - by rewrite Hcur.
  - by rewrite Hcur.
Qed.

Lemma unsafe_true_replaced_witness :
  exists l b wi,
    getBlock (Sample.doc "ag-1") "ag-1"%string = Some l
    /\ heap (Sample.doc "ag-1") !! l = Some b
    /\ extractWord (text b) 5 = Some wi
    /\ SpellChecker.word wi = str "def"
    /\ text <$> heap
         {| heap := <[1%positive :=
                        set_text Sample.paragraph (str "abc fed")]>
                      (heap (Sample.doc "ag-1"));
            blocks := blocks (Sample.doc "ag-1");
            cursor := Sample.caret "ag-1" 7 None;
            events := [PartialRender; DispatchSelectionChange;
                       DispatchChange] |} !! l
       = Some (take (Z.to_nat (left wi)) (text b) ++ str "fed"
               ++ drop (Z.to_nat (right wi)) (text b))
    /\ 7 = left wi + len (str "fed")
    /\ Sample.at_ "ag-1" 7 None = Sample.at_ "ag-1" 7 None
    /\ [PartialRender; DispatchSelectionChange; DispatchChange]
       = events (Sample.doc "ag-1")
         ++ [PartialRender; DispatchSelectionChange; DispatchChange].
Proof.
  apply (unsafe_true_replaced id (Sample.caret "ag-1" 5 None)
           (str "def") (str "fed") (Sample.doc "ag-1")
           {| heap := <[1%positive :=
                          set_text Sample.paragraph (str "abc fed")]>
                        (heap (Sample.doc "ag-1"));
              blocks := blocks (Sample.doc "ag-1");
              cursor := Sample.caret "ag-1" 7 None;
              events := [PartialRender; DispatchSelectionChange;
                         DispatchChange] |}).
  - intros k l. unfold getBlock. simpl. intros H.
    apply lookup_insert_Some in H as [[_ <-] | [_ H]]; [by eexists |].
    apply lookup_singleton_Some in H as [_ <-]. by eexists.
  - reflexivity.
Defined.

(** X19: an active cursor that spans two lines makes the call throw. When
    the selection is eligible and the word extracted is the word reported,
    but the start and the end of [this.cursor] are on different lines, the
    call throws the word cursor error of [replaceWordInline] and changes
    nothing. [deepClone] keeps the key of a position. *)
Theorem unsafe_cursor_spans_lines (deepClone : Position -> Position)
    (range : Cursor) (word replacement : jsstring) (st : State)
    (l : loc) (b : Block) (wi : WordInfo) :
  (forall p, key (deepClone p) = key p) ->
  validateLineCursor (heap st) (Some (raw_cursor (attach_block st range)))
  = Return true ->
  getBlock st (key (start range)) = Some l ->
  heap st !! l = Some b ->
  extractWord (text b) (offset (start range)) = Some wi ->
  SpellChecker.word wi = word ->
  key (start (cursor st)) <> key (end_ (cursor st)) ->
  _replaceCurrentWordInlineUnsafe deepClone range word replacement st
  = Throw st InvalidWordCursor.
Proof.
  intros Hclone Hv Hg Hh He Hw Hcur.
  unfold _replaceCurrentWordInlineUnsafe. rewrite Hv.
  simpl. rewrite Hg. simpl. rewrite Hh, He.
  rewrite bool_decide_eq_true_2 by done. simpl.
  rewrite replaceWordInline_word_keys; [done |].
  simpl. by rewrite !Hclone.
Qed.

Lemma unsafe_cursor_spans_lines_witness :
  _replaceCurrentWordInlineUnsafe id (Sample.caret "ag-1" 5 None)
    (str "def") (str "fed")
    (set_cursor (Sample.doc "ag-1")
       {| start := Sample.at_ "ag-1" 0 None;
          end_ := Sample.at_ "ag-2" 3 None |})
  = Throw (set_cursor (Sample.doc "ag-1")
             {| start := Sample.at_ "ag-1" 0 None;
                end_ := Sample.at_ "ag-2" 3 None |})
      InvalidWordCursor.
Proof.
  apply (unsafe_cursor_spans_lines id (Sample.caret "ag-1" 5 None)
           (str "def") (str "fed")
           (set_cursor (Sample.doc "ag-1")
              {| start := Sample.at_ "ag-1" 0 None;
                 end_ := Sample.at_ "ag-2" 3 None |})
           1%positive Sample.paragraph
           {| left := 4; right := 7; word := str "def" |}).
  - reflexivity.
  - reflexivity.
  - reflexivity.
  - reflexivity.
  - reflexivity.
  - reflexivity.
  - vm_compute. discriminate.
Defined.

(** ** The spell checker object *)

Section ObjectFacts.

Import SpellCheckerObject.

Lemma truthy_Some_nonempty (s : option string) :
  truthy s = true -> s <> None /\ s <> Some ""%string.
Proof. destruct s as [[|] |]; done. Qed.

End ObjectFacts.

(** X20: a deactivated checker stays out of the way. After
    [deactivateSpellchecker], of which the one message sent disables the
    checker of the main process, [isEnabled] is [false], the language reads
    as the empty string, no word is misspelled whatever the provider says,
    and on a host that is not macOS switching to a language and adding or
    removing a word resolve to [false] without a message. *)
Theorem deactivated_checker (sc : SpellCheckerObject.t) :
  let sc' := (SpellCheckerObject.deactivateSpellchecker sc).1 in
  (SpellCheckerObject.deactivateSpellchecker sc).2
  = [SpellCheckerObject.SetEnabled false]
  /\ SpellCheckerObject.isEnabled sc' = false
  /\ SpellCheckerObject.lang sc' = Some ""%string
  /\ (forall provider w,
        SpellCheckerObject.isMisspelled provider sc' w = false)
  /\ (forall reply l,
        SpellCheckerObject.truthy l = true ->
        SpellCheckerObject.switchLanguage false reply l sc'
        = (sc', [], SpellCheckerObject.Fulfilled false))
  /\ (forall reply w,
        SpellCheckerObject.addToDictionary reply w sc'
        = ([], SpellCheckerObject.Fulfilled false)
        /\ SpellCheckerObject.removeFromDictionary reply w sc'
           = ([], SpellCheckerObject.Fulfilled false)).
Proof.
  simpl. repeat split; try done.
  intros reply l Hl. unfold SpellCheckerObject.switchLanguage.
  by rewrite Hl.
Qed.

Lemma deactivated_checker_witness :
  SpellCheckerObject.switchLanguage false
    (SpellCheckerObject.Replied None) (Some "de-DE"%string)
    (SpellCheckerObject.deactivateSpellchecker
       (SpellCheckerObject.new None (Some "en-US"%string))).1
  = ((SpellCheckerObject.deactivateSpellchecker
        (SpellCheckerObject.new None (Some "en-US"%string))).1,
     [], SpellCheckerObject.Fulfilled false).
Proof.
  apply (deactivated_checker
           (SpellCheckerObject.new None (Some "en-US"%string))).
  reflexivity.
Defined.

(** X21: what [switchLanguage] changes and sends. The call leaves the
    instance as it was unless it fulfils with [true] on a host that is not
    macOS, and then only the language is new; it never changes
    [isEnabled]; it fulfils with [false] only on a checker that is not
    enabled; and it sends a message exactly when the host is not macOS,
    the language is not empty and the checker is enabled. *)
Theorem switchLanguage_effects (isOsx : bool)
    (reply : SpellCheckerObject.invoked (option string))
    (l : option string) (sc sc' : SpellCheckerObject.t)
    (sent : list SpellCheckerObject.Message)
    (r : SpellCheckerObject.settled bool) :
  SpellCheckerObject.switchLanguage isOsx reply l sc = (sc', sent, r) ->
  (sc' = sc
   \/ (r = SpellCheckerObject.Fulfilled true /\ isOsx = false
       /\ sc' = SpellCheckerObject.set_lang l sc
       /\ SpellCheckerObject.lang sc' = l))
  /\ SpellCheckerObject.isEnabled sc' = SpellCheckerObject.isEnabled sc
  /\ (r = SpellCheckerObject.Fulfilled false ->
      SpellCheckerObject.isEnabled sc = false)
  /\ (sent = [SpellCheckerObject.SwitchLanguage l]
      /\ isOsx = false /\ SpellCheckerObject.truthy l = true
      /\ SpellCheckerObject.isEnabled sc = true
      \/ sent = []
         /\ (isOsx = true \/ SpellCheckerObject.truthy l = false
             \/ SpellCheckerObject.isEnabled sc = false)).
Proof.
  unfold SpellCheckerObject.switchLanguage.
  destruct isOsx.
  { intros [= <- <- <-]. repeat split; try done; [by left | right; tauto]. }
  destruct (SpellCheckerObject.truthy l) eqn:Hl; simpl.
  2: { intros [= <- <- <-].
       repeat split; try done; [by left | right; tauto]. }
  destruct (SpellCheckerObject.isEnabled sc) eqn:He.
  2: { intros [= <- <- <-].
       repeat split; try done; [by left | right; tauto]. }
  destruct reply as [errorMsg | e].
  - destruct (SpellCheckerObject.truthy errorMsg).
    + intros [= <- <- <-].
      repeat split; try done; [by left | left; tauto].
    + intros [= <- <- <-]. repeat split; try done; [| left; tauto].
      right. repeat split; try done.
      unfold SpellCheckerObject.lang, SpellCheckerObject.set_lang.
      unfold SpellCheckerObject.isEnabled in *. simpl. by rewrite He.
  - intros [= <- <- <-].
    repeat split; try done; [by left | left; tauto].
Qed.

Lemma switchLanguage_effects_witness :
  (SpellCheckerObject.set_lang (Some "de-DE"%string)
     (SpellCheckerObject.new None (Some "en-US"%string))
   = SpellCheckerObject.new None (Some "en-US"%string)
   \/ (SpellCheckerObject.Fulfilled true = SpellCheckerObject.Fulfilled true
       /\ false = false
       /\ SpellCheckerObject.set_lang (Some "de-DE"%string)
            (SpellCheckerObject.new None (Some "en-US"%string))
          = SpellCheckerObject.set_lang (Some "de-DE"%string)
              (SpellCheckerObject.new None (Some "en-US"%string))
       /\ SpellCheckerObject.lang
            (SpellCheckerObject.set_lang (Some "de-DE"%string)
               (SpellCheckerObject.new None (Some "en-US"%string)))
          = Some "de-DE"%string)).
Proof.
  apply (switchLanguage_effects false (SpellCheckerObject.Replied None)
           (Some "de-DE"%string)
           (SpellCheckerObject.new None (Some "en-US"%string))
           (SpellCheckerObject.set_lang (Some "de-DE"%string)
              (SpellCheckerObject.new None (Some "en-US"%string)))
           [SpellCheckerObject.SwitchLanguage (Some "de-DE"%string)]
           (SpellCheckerObject.Fulfilled true)).
  reflexivity.
Defined.

(** X22: [activateSpellchecker] ends enabled or deactivated, never in
    between. When it fulfils, the value is [true], never [false], the
    checker is enabled and, on a host that is not macOS, the language is
    the one asked for or else the one remembered, and is not empty. When
    it rejects, the checker is deactivated, its language reads as the
    empty string, and the last message sent disables the checker of the
    main process. *)
Theorem activateSpellchecker_outcome (isOsx : bool)
    (reply : SpellCheckerObject.invoked (option string))
    (l : option string) (sc sc' : SpellCheckerObject.t)
    (sent : list SpellCheckerObject.Message)
    (r : SpellCheckerObject.settled bool) :
  SpellCheckerObject.activateSpellchecker isOsx reply l sc = (sc', sent, r) ->
  match r with
  | SpellCheckerObject.Fulfilled v =>
      v = true
      /\ SpellCheckerObject.isEnabled sc' = true
      /\ (isOsx = false ->
          SpellCheckerObject.lang sc'
          = (if SpellCheckerObject.truthy l then l
             else SpellCheckerObject.currentSpellcheckerLanguage sc)
          /\ SpellCheckerObject.truthy (SpellCheckerObject.lang sc') = true)
  | SpellCheckerObject.Rejected e =>
      SpellCheckerObject.isEnabled sc' = false
      /\ SpellCheckerObject.lang sc' = Some ""%string
      /\ last sent = Some (SpellCheckerObject.SetEnabled false)
      /\ SpellCheckerObject.currentSpellcheckerLanguage sc'
         = SpellCheckerObject.currentSpellcheckerLanguage sc
  end.
Proof.
  unfold SpellCheckerObject.activateSpellchecker,
    SpellCheckerObject.switchLanguage.
  cbn [SpellCheckerObject.currentSpellcheckerLanguage].
  set (l' := if SpellCheckerObject.truthy l then l
             else SpellCheckerObject.currentSpellcheckerLanguage sc).
  destruct isOsx.
  { intros [= <- <- <-]. repeat split; done. }
  destruct (SpellCheckerObject.truthy l') eqn:Hl; simpl.
  2: { intros [= <- <- <-]. repeat split; done. }
  destruct reply as [errorMsg | e].
  - destruct (SpellCheckerObject.truthy errorMsg).
    + intros [= <- <- <-]. repeat split; done.
    + intros [= <- <- <-]. repeat split; done.
  - intros [= <- <- <-]. repeat split; done.
Qed.

Lemma activateSpellchecker_outcome_witness :
  SpellCheckerObject.isEnabled
    (SpellCheckerObject.deactivateSpellchecker
       (SpellCheckerObject.new (Some false) (Some "en-US"%string))).1
  = false
  /\ SpellCheckerObject.lang
       (SpellCheckerObject.deactivateSpellchecker
          (SpellCheckerObject.new (Some false) (Some "en-US"%string))).1
     = Some ""%string
  /\ last [SpellCheckerObject.SwitchLanguage (Some "xx"%string);
           SpellCheckerObject.SetEnabled false]
     = Some (SpellCheckerObject.SetEnabled false)
  /\ SpellCheckerObject.currentSpellcheckerLanguage
       (SpellCheckerObject.deactivateSpellchecker
          (SpellCheckerObject.new (Some false) (Some "en-US"%string))).1
     = SpellCheckerObject.currentSpellcheckerLanguage
         (SpellCheckerObject.new (Some false) (Some "en-US"%string)).
Proof.
  apply (activateSpellchecker_outcome false
           (SpellCheckerObject.Replied (Some "no dictionary"%string))
           (Some "xx"%string)
           (SpellCheckerObject.new (Some false) (Some "en-US"%string))
           (SpellCheckerObject.deactivateSpellchecker
              (SpellCheckerObject.new (Some false) (Some "en-US"%string))).1
           [SpellCheckerObject.SwitchLanguage (Some "xx"%string);
            SpellCheckerObject.SetEnabled false]
           (SpellCheckerObject.Rejected
              (SpellCheckerObject.Error "no dictionary"))).
  reflexivity.
Defined.

(** X23: activating with no language to fall back on. On a host that is
    not macOS, when neither the argument nor the language remembered is a
    non-empty string, [activateSpellchecker] rejects with the error
    [Invalid empty language.], asks the main process for no language, and
    leaves the checker deactivated, even one that was enabled before. *)
Theorem activateSpellchecker_empty_language
    (reply : SpellCheckerObject.invoked (option string))
    (l : option string) (sc : SpellCheckerObject.t) :
  SpellCheckerObject.truthy l = false ->
  SpellCheckerObject.truthy
    (SpellCheckerObject.currentSpellcheckerLanguage sc) = false ->
  exists sc',
    SpellCheckerObject.activateSpellchecker false reply l sc
    = (sc', [SpellCheckerObject.SetEnabled false],
       SpellCheckerObject.Rejected
         (SpellCheckerObject.Error "Invalid empty language."))
    /\ SpellCheckerObject.isEnabled sc' = false.
Proof.
  intros Hl Hc.
  unfold SpellCheckerObject.activateSpellchecker,
    SpellCheckerObject.switchLanguage.
  cbn [SpellCheckerObject.currentSpellcheckerLanguage].
  rewrite Hl, Hc. simpl. by eexists.
Qed.

Lemma activateSpellchecker_empty_language_witness :
  exists sc',
    SpellCheckerObject.activateSpellchecker false
      (SpellCheckerObject.Replied None) (Some ""%string)
      (SpellCheckerObject.new None None)
    = (sc', [SpellCheckerObject.SetEnabled false],
       SpellCheckerObject.Rejected
         (SpellCheckerObject.Error "Invalid empty language."))
    /\ SpellCheckerObject.isEnabled sc' = false.
Proof.
  apply (activateSpellchecker_empty_language
           (SpellCheckerObject.Replied None) (Some ""%string)
           (SpellCheckerObject.new None None)).
  - reflexivity.
  - reflexivity.
Defined.

(** ** The spelling submenu *)

Section MenuFacts.

Import SpellingMenu.

Lemma fold_left_push {A B} (f : A -> B) (xs : list A) (init : list B) :
  fold_left (fun menu x => menu ++ [f x]) xs init = init ++ map f xs.
Proof.
  revert init. induction xs as [| x xs IH]; intros init; simpl.
  - by rewrite app_nil_r.
  - rewrite IH. by rewrite <- app_assoc.
Qed.

Lemma lookup_map_Some {A B} (f : A -> B) (xs : list A) (i : nat) x :
  xs !! i = Some x -> map f xs !! i = Some (f x).
Proof.
  revert i. induction xs as [| y xs IH]; intros [| i]; simpl; try done.
  - by intros [= ->].
  - apply IH.
Qed.

(** The submenu as a list. *)
Lemma spellingSubmenu_eq isOsx isMisspelled misspelledWord wordSuggestions :
  spellingSubmenu isOsx isMisspelled misspelledWord wordSuggestions
  = NewMenuItem (str "Change Language...") (negb isOsx) ShowSwitchLanguage
    :: (if isMisspelled && truthy misspelledWord
           && bool_decide (is_Some wordSuggestions)
        then
          Template (str "Add to Dictionary")
            (AddToDictionary (default [] misspelledWord))
          :: match default [] wordSuggestions with
             | [] => []
             | ss =>
                 SEPARATOR
                 :: map (fun s =>
                           Template s
                             (ReplaceMisspelling (default [] misspelledWord)
                                s)) ss
             end
        else [Template (str "Edit Dictionary...") EditDictionary]).
Proof.
  unfold spellingSubmenu.
  destruct (isMisspelled && truthy misspelledWord
            && bool_decide (is_Some wordSuggestions)); [| done].
  destruct (default [] wordSuggestions) as [| s ss]; [done |].
  cbv zeta.
  destruct (Z.gtb_spec (Z.of_nat (length (s :: ss))) 0) as [_ | Hle];
    [| simpl in Hle; lia].
  rewrite fold_left_push. done.
Qed.

End MenuFacts.

(** X24: the suggestions of a misspelled word are offered in their order,
    one entry each, after the entry that adds the word to the dictionary
    and a separator; the entry of a suggestion is labelled with it and its
    click asks to replace the misspelled word by it. With no suggestion
    there is no separator and the submenu has two entries. *)
Theorem spellingSubmenu_suggestions (isOsx : bool) (w : jsstring)
    (ss : list jsstring) :
  w <> [] ->
  let menu := SpellingMenu.spellingSubmenu isOsx true (Some w) (Some ss) in
  menu !! 1%nat
  = Some (SpellingMenu.Template (str "Add to Dictionary")
            (SpellingMenu.AddToDictionary w))
  /\ (ss = [] -> length menu = 2%nat)
  /\ (ss <> [] ->
      length menu = (3 + length ss)%nat
      /\ menu !! 2%nat = Some SpellingMenu.SEPARATOR)
  /\ (forall (i : nat) s, ss !! i = Some s ->
        menu !! (3 + i)%nat
        = Some (SpellingMenu.Template s
                  (SpellingMenu.ReplaceMisspelling w s))).
Proof.
  intros Hw menu. subst menu. rewrite spellingSubmenu_eq.
  destruct w as [| c w]; [done |].
  cbn [SpellingMenu.truthy andb default].
  rewrite bool_decide_eq_true_2 by (by eexists).
  split; [done |]. split; [by intros -> |]. split.
  - intros Hss. destruct ss as [| s ss]; [done |].
    simpl. by rewrite length_map.
  - intros i s Hi. destruct ss as [| s0 ss]; [done |].
    change ((3 + i)%nat) with (S (S (S i))). cbn [lookup list_lookup].
    exact (lookup_map_Some
             (fun s => SpellingMenu.Template s
                         (SpellingMenu.ReplaceMisspelling (c :: w) s))
             (s0 :: ss) i s Hi).
Qed.

Lemma spellingSubmenu_suggestions_witness :
  SpellingMenu.spellingSubmenu false true (Some (str "teh"))
    (Some [str "the"; str "ten"]) !! (3 + 1)%nat
  = Some (SpellingMenu.Template (str "ten")
            (SpellingMenu.ReplaceMisspelling (str "teh") (str "ten"))).
Proof.
  apply (spellingSubmenu_suggestions false (str "teh")
           [str "the"; str "ten"]).
  - discriminate.
  - reflexivity.
Defined.

(** X25: the submenu offers to edit the dictionary exactly when it does
    not offer to add a word to it. The entry [Edit Dictionary...] is
    present if and only if the word is not misspelled, or is empty or
    missing, or the suggestions are missing; the entry [Add to
    Dictionary] is present, for the misspelled word, in the other case.
    The first entry is always [Change Language...], visible on every host
    but macOS. *)
Theorem spellingSubmenu_dictionary_entry (isOsx isMisspelled : bool)
    (w : option jsstring) (ss : option (list jsstring)) :
  let menu := SpellingMenu.spellingSubmenu isOsx isMisspelled w ss in
  let offered :=
    isMisspelled && SpellingMenu.truthy w && bool_decide (is_Some ss) in
  head menu
  = Some (SpellingMenu.NewMenuItem (str "Change Language...")
            (negb isOsx) SpellingMenu.ShowSwitchLanguage)
  /\ (In (SpellingMenu.Template (str "Edit Dictionary...")
            SpellingMenu.EditDictionary) menu
      <-> offered = false)
  /\ (forall w',
        In (SpellingMenu.Template (str "Add to Dictionary")
              (SpellingMenu.AddToDictionary w')) menu
        <-> offered = true /\ w = Some w').
Proof.
  intros menu offered. subst menu. rewrite spellingSubmenu_eq.
  fold offered. split; [done |].
  assert (Hsug : forall w0 (l : list jsstring) it,
            In it (map (fun s => SpellingMenu.Template s
                                   (SpellingMenu.ReplaceMisspelling w0 s)) l)
            -> exists s, it = SpellingMenu.Template s
                             (SpellingMenu.ReplaceMisspelling w0 s)).
  { intros w0 l it Hin. apply in_map_iff in Hin as (s & <- & _).
    by exists s. }
  destruct offered eqn:Hoff.
  - assert (Hw : exists c w0, w = Some (c :: w0)).
    { subst offered. destruct isMisspelled; [| done].
      destruct w as [[| c w0] |]; try done. by exists c, w0. }
    destruct Hw as (c & w0 & ->). cbn [default id].
    assert (Htail : forall it,
              In it match default [] ss with
                    | [] => []
                    | s0 :: l0 =>
                        SpellingMenu.SEPARATOR
                        :: map (fun s => SpellingMenu.Template s
                                  (SpellingMenu.ReplaceMisspelling
                                     (c :: w0) s)) (s0 :: l0)
                    end ->
              it = SpellingMenu.SEPARATOR
              \/ exists s, it = SpellingMenu.Template s
                                  (SpellingMenu.ReplaceMisspelling
                                     (c :: w0) s)).
    { intros it Hin. destruct (default [] ss) as [| s0 l0]; [done |].
      destruct Hin as [<- | Hin]; [by left |]. right. by eapply Hsug. }
    split.
    + split; [| done].
      intros [H | [H | H]]; [discriminate | discriminate |].
      apply Htail in H as [H | (s & H)]; discriminate.
    + intros w'. split.
      * intros [H | [H | H]]; [discriminate | by injection H as <- |].
        apply Htail in H as [H | (s & H)]; discriminate.
      * intros [_ [= <-]]. right. by left.
  - split.
    + split; [done |]. intros _. right. by left.
    + intros w'. split; [| by intros [? _]].
      intros [H | [H | H]]; [discriminate | discriminate | done].
Qed.

Lemma spellingSubmenu_dictionary_entry_witness :
  In (SpellingMenu.Template (str "Edit Dictionary...")
        SpellingMenu.EditDictionary)
    (SpellingMenu.spellingSubmenu false true (Some []) (Some [str "a"])).
Proof.
  apply (proj2 (proj1 (proj2 (spellingSubmenu_dictionary_entry false true
                                (Some []) (Some [str "a"]))))).
  reflexivity.
Defined.
